(** * The MQTT bridge of ebusd: topic templates, variable store, dispatch

    A shallow embedding of [src/ebusd/mqtthandler.cpp]: the topic template
    engine ([MqttReplacer]), the variable store with its constant folding
    ([MqttReplacers]), and the parts of [MqttHandler] that route an inbound
    topic and drive the reconnect policy.

    Conventions.
    - [std::string] is [string]; positions and lengths are [nat];
      [string::npos] is [None].
    - [std::map<string, string>] used only through [find], [operator[]] and
      [erase] is a [gmap string string].  The map of templates is iterated in
      key order while it is being erased from, so it is kept as an
      association list in iteration order.
    - [int] and [ssize_t] values are [Z]; the values that occur are far from
      the limits of the machine types.
    - Out-parameters are passed in and returned. *)

From Stdlib Require Import ZArith Ascii String Bool Lia.
From stdpp Require Import gmap strings list pretty.

Local Open Scope Z_scope.

(** ** [std::string] operations used by the handler *)

Module StdString.

Definition length (s : string) : nat := String.length s.

Definition empty (s : string) : bool :=
  match s with EmptyString => true | String _ _ => false end.

(** [s.substr(pos, n)] for [pos <= s.length()]; the count is clipped at
    the end of the string.  Every call in the handler has
    [pos <= s.length()], where C++ does not throw. *)
Definition substr (s : string) (pos n : nat) : string :=
  String.substring pos n s.

(** [s.substr(pos)] *)
Definition substr_from (s : string) (pos : nat) : string :=
  String.substring pos (String.length s - pos) s.

(** [s.find(needle, from)] *)
Definition find (s needle : string) (from : nat) : option nat :=
  String.index from needle s.

(** [s.find(c, from)] *)
Definition find_char (s : string) (c : ascii) (from : nat) : option nat :=
  String.index from (String c EmptyString) s.

(** Position of the last character of [s] satisfying [p], counted from
    [pos], the position of the first character of [s]. *)
Fixpoint find_last (p : ascii -> bool) (s : string) (pos : nat) : option nat :=
  match s with
  | EmptyString => None
  | String c s' =>
      match find_last p s' (S pos) with
      | Some i => Some i
      | None => if p c then Some pos else None
      end
  end.

Fixpoint find_first (p : ascii -> bool) (s : string) (pos : nat) : option nat :=
  match s with
  | EmptyString => None
  | String c s' => if p c then Some pos else find_first p s' (S pos)
  end.

Fixpoint mem (c : ascii) (chars : string) : bool :=
  match chars with
  | EmptyString => false
  | String d chars' => Ascii.eqb c d || mem c chars'
  end.

(** [s.rfind(c)] and [s.find_last_of(c)] *)
Definition rfind_char (s : string) (c : ascii) : option nat :=
  find_last (Ascii.eqb c) s 0.

(** [s.find_first_of(chars)] *)
Definition find_first_of (s chars : string) : option nat :=
  find_first (fun c => mem c chars) s 0.

(** [transform(s.begin(), s.end(), s.begin(), f)] *)
Fixpoint transform (f : ascii -> ascii) (s : string) : string :=
  match s with
  | EmptyString => EmptyString
  | String c s' => String (f c) (transform f s')
  end.

End StdString.

(** ** Character classes of [<cctype>] in the "C" locale *)

Definition in_range (lo hi : nat) (c : ascii) : bool :=
  let n := nat_of_ascii c in Nat.leb lo n && Nat.leb n hi.

Definition isdigit (c : ascii) : bool := in_range 48 57 c.
Definition isupper (c : ascii) : bool := in_range 65 90 c.
Definition islower (c : ascii) : bool := in_range 97 122 c.
Definition isalnum (c : ascii) : bool := isdigit c || isupper c || islower c.

Definition toupper (c : ascii) : ascii :=
  if islower c then ascii_of_nat (nat_of_ascii c - 32) else c.

(** ** MqttReplacer: one topic template *)

(** Modelled from the spec: [PACKAGE] is a macro of [config.h], outside
    [src/]; the example template of the spec and the help text of
    [--mqtttopic] have [ebusd] as the default prefix. *)
Definition PACKAGE : string := "ebusd".

(** A part is a [std::pair<string, int>]: the text and the field index,
    negative for a literal. *)
Definition part : Type := string * Z.

(** the known topic field names. *)
Definition knownFieldNames : list string := ["circuit"; "name"; "field"].

(** the number of known field names. *)
Definition knownFieldCount : Z := Z.of_nat (List.length knownFieldNames).

Fixpoint makeField_search (name : string) (names : list string) (idx : Z) : Z :=
  match names with
  | [] => knownFieldCount
  | known :: names' =>
      if String.eqb name known then idx
      else makeField_search name names' (idx + 1)
  end.

Definition makeField (name : string) (isField : bool) : part :=
  if negb isField then (name, -1)
  else (name, makeField_search name knownFieldNames 0).

Module MqttReplacer.

Record t : Type := mk {
  m_parts : list part;
  m_emptyIfMissing : bool
}.

(** A freshly constructed replacer before [ensureDefault]: no parts.  The
    initial value of [m_emptyIfMissing] is set in [mqtthandler.h], outside
    [src/]; nothing below depends on it. *)
Definition init : t := {| m_parts := []; m_emptyIfMissing := false |}.

(** *** parse *)

(** The loop variables of [parse]: the parts pushed so far, [inField] and
    the contents of the [ostringstream stack]. *)
Record scan_state : Type := {
  sc_parts : list part;
  sc_inField : bool;
  sc_stack : string
}.

Definition NUL : ascii := ascii_of_nat 0.

Definition isFieldChar (ch : ascii) : bool :=
  islower ch || isupper ch || Ascii.eqb ch "_".

Definition push_char (stack : string) (ch : ascii) : string :=
  stack +:+ String ch EmptyString.

(** One iteration of the scanning loop on character [ch]. *)
Definition scan_step (st : scan_state) (ch : ascii) : scan_state :=
  let empty := Nat.leb (StdString.length (sc_stack st)) 0 in
  if Ascii.eqb ch "%" || Ascii.eqb ch NUL then
    if sc_inField st && empty then
      {| sc_parts := sc_parts st;
         sc_inField := false;
         sc_stack := push_char (sc_stack st) ch |}
    else if negb empty then
      {| sc_parts := sc_parts st ++ [makeField (sc_stack st) (sc_inField st)];
         sc_inField := true;
         sc_stack := EmptyString |}
    else
      {| sc_parts := sc_parts st;
         sc_inField := true;
         sc_stack := sc_stack st |}
  else
    if sc_inField st && negb (isFieldChar ch) then
      if Nat.ltb 0 (StdString.length (sc_stack st)) then
        {| sc_parts := sc_parts st ++ [makeField (sc_stack st) true];
           sc_inField := false;
           sc_stack := push_char EmptyString ch |}
      else
        {| sc_parts := sc_parts st;
           sc_inField := false;
           sc_stack := push_char (sc_stack st) ch |}
    else
      {| sc_parts := sc_parts st;
         sc_inField := sc_inField st;
         sc_stack := push_char (sc_stack st) ch |}.

Fixpoint scan_chars (st : scan_state) (s : string) : scan_state :=
  match s with
  | EmptyString => st
  | String ch s' => scan_chars (scan_step st ch) s'
  end.

(** The whole scanning loop: the characters of the template, then one
    more iteration with the terminating NUL. *)
Definition scan (templateStr : string) : list part :=
  let st0 := {| sc_parts := []; sc_inField := false; sc_stack := EmptyString |} in
  sc_parts (scan_step (scan_chars st0 templateStr) NUL).

(** The validation loop over the parts; [false] is an early
    [return false]. *)
Fixpoint check_known (onlyKnown noKnownDuplicates : bool)
    (parts : list part) (foundMask : Z) : bool :=
  match parts with
  | [] => true
  | it :: rest =>
      if it.2 <? 0 then
        check_known onlyKnown noKnownDuplicates rest foundMask
      else if onlyKnown && (it.2 >=? knownFieldCount) then false
      else if noKnownDuplicates && (it.2 <? knownFieldCount) then
        let bit := Z.shiftl 1 it.2 in
        if negb (Z.land foundMask bit =? 0) then false
        else check_known onlyKnown noKnownDuplicates rest (Z.lor foundMask bit)
      else check_known onlyKnown noKnownDuplicates rest foundMask
  end.

(** [parse] returns its result and the new state of the replacer. *)
Definition parse (self : t) (templateStr : string)
    (onlyKnown noKnownDuplicates emptyIfMissing : bool) : bool * t :=
  let parts := scan templateStr in
  if (onlyKnown || noKnownDuplicates)
     && negb (check_known onlyKnown noKnownDuplicates parts 0)
  then (false, {| m_parts := parts; m_emptyIfMissing := m_emptyIfMissing self |})
  else (true, {| m_parts := parts; m_emptyIfMissing := emptyIfMissing |}).

(** *** normalize *)

Definition normalize (str : string) : string :=
  StdString.transform (fun c => if isalnum c then c else "_"%char) str.

(** *** has *)

Fixpoint has_parts (parts : list part) (field : string) : bool :=
  match parts with
  | [] => false
  | it :: rest =>
      if (it.2 >=? 0) && String.eqb it.1 field then true
      else has_parts rest field
  end.

Definition has (self : t) (field : string) : bool :=
  has_parts (m_parts self) field.

(** *** ensureDefault *)

(** The first statement of [ensureDefault]: an empty template gets the
    default prefix, a lone literal without a slash gets one appended. *)
Definition ensurePrefix (parts : list part) : list part :=
  match parts with
  | [] => [(PACKAGE +:+ "/", -1)]
  | [p0] =>
      if (p0.2 <? 0)
         && bool_decide (StdString.find_char p0.1 "/" 0 = None)
      then [(p0.1 +:+ "/", -1)]
      else [p0]
  | _ => parts
  end.

Definition ensureDefault (self : t) : t :=
  let parts1 := ensurePrefix (m_parts self) in
  let parts2 :=
    if negb (has_parts parts1 "circuit")
    then parts1 ++ [("circuit", 0); ("/", -1)]
    else parts1 in
  let parts3 :=
    if negb (has_parts parts2 "name")
    then parts2 ++ [("name", 1)]
    else parts2 in
  {| m_parts := parts3; m_emptyIfMissing := m_emptyIfMissing self |}.

(** The constructor [MqttReplacer(bool fillDefault)]. *)
Definition new (fillDefault : bool) : t :=
  if fillDefault then ensureDefault init else init.

(** *** get *)

Fixpoint get_loop (parts : list part) (values : gmap string string)
    (untilFirstEmpty : bool) (ret : string) : string :=
  match parts with
  | [] => ret
  | it :: rest =>
      if it.2 <? 0 then get_loop rest values untilFirstEmpty (ret +:+ it.1)
      else
        match values !! it.1 with
        | None =>
            if untilFirstEmpty then ret
            else get_loop rest values untilFirstEmpty ret
        | Some v =>
            if untilFirstEmpty && StdString.empty v then ret
            else get_loop rest values untilFirstEmpty (ret +:+ v)
        end
  end.

Definition get (self : t) (values : gmap string string)
    (untilFirstEmpty onlyAlphanum : bool) : string :=
  let ret := get_loop (m_parts self) values untilFirstEmpty EmptyString in
  if negb onlyAlphanum then ret else normalize ret.

(** *** isReducable *)

Fixpoint isReducable_parts (parts : list part) (values : gmap string string) : bool :=
  match parts with
  | [] => true
  | it :: rest =>
      if it.2 <? 0 then isReducable_parts rest values
      else
        match values !! it.1 with
        | None => false
        | Some _ => isReducable_parts rest values
        end
  end.

Definition isReducable (self : t) (values : gmap string string) : bool :=
  isReducable_parts (m_parts self) values.

(** *** reduce *)

(** Returns the [bool] result and the value left in [result]. *)
Fixpoint reduce_loop (emptyIfMissing : bool) (parts : list part)
    (values : gmap string string) (onlyAlphanum : bool) (ret : string)
    : bool * string :=
  match parts with
  | [] => (true, if onlyAlphanum then normalize ret else ret)
  | it :: rest =>
      if it.2 <? 0 then
        reduce_loop emptyIfMissing rest values onlyAlphanum (ret +:+ it.1)
      else
        match values !! it.1 with
        | None => (false, if emptyIfMissing then EmptyString else ret)
        | Some v =>
            if emptyIfMissing && StdString.empty v then (true, EmptyString)
            else reduce_loop emptyIfMissing rest values onlyAlphanum (ret +:+ v)
        end
  end.

Definition reduce (self : t) (values : gmap string string)
    (onlyAlphanum : bool) : bool * string :=
  reduce_loop (m_emptyIfMissing self) (m_parts self) values onlyAlphanum EmptyString.

(** *** matchTopic *)

(** The out-parameters [circuit], [name] and [field]. *)
Record topic_fields : Type := {
  tf_circuit : string;
  tf_name : string;
  tf_field : string
}.

Definition no_fields : topic_fields :=
  {| tf_circuit := EmptyString; tf_name := EmptyString; tf_field := EmptyString |}.

(** The [switch (part.second)] that stores a matched value. *)
Definition store_value (idx : Z) (value : string) (out : topic_fields) : topic_fields :=
  if idx =? 0 then
    {| tf_circuit := value; tf_name := tf_name out; tf_field := tf_field out |}
  else if idx =? 1 then
    {| tf_circuit := tf_circuit out; tf_name := value; tf_field := tf_field out |}
  else if idx =? 2 then
    {| tf_circuit := tf_circuit out; tf_name := tf_name out; tf_field := value |}
  else out.

(** The body of the [for] loop of [matchTopic] at part [it] of index
    [idx], with [rest] the parts after it: [inl] is a [return], [inr] the
    offset and the out-parameters the loop goes on with. *)
Definition matchTopic_body (remain : string) (it : part) (rest : list part)
    (idx last : nat) (out : topic_fields)
    : (Z * topic_fields) + (nat * topic_fields) :=
  if it.2 <? 0 then
    if negb (String.eqb (StdString.substr remain last (StdString.length it.1)) it.1)
    then inl (Z.of_nat idx, out)
    else inr ((last + StdString.length it.1)%nat, out)
  else
    let found : option string :=
      match rest with
      | next :: _ =>
          match StdString.find remain next.1 last with
          | None => None
          | Some pos => Some (StdString.substr remain last (pos - last))
          end
      | [] =>
          match StdString.find_char remain "/" last with
          | Some _ => None
          | None => Some remain
          end
      end in
    match found with
    | None => inl (- Z.of_nat idx - 1, out)
    | Some value =>
        inr ((last + StdString.length value)%nat, store_value it.2 value out)
    end.

(** The [for] loop of [matchTopic] from index [idx] on; [parts] are
    [m_parts[idx..]]. *)
Fixpoint matchTopic_loop (remain : string) (parts : list part)
    (idx : nat) (last : nat) (out : topic_fields) : Z * topic_fields :=
  match parts with
  | [] => (Z.of_nat idx, out)
  | it :: rest =>
      match matchTopic_body remain it rest idx last out with
      | inl r => r
      | inr (last', out') => matchTopic_loop remain rest (S idx) last' out'
      end
  end.

(** The loop variables after [k] more iterations, when the loop gets that
    far: the parts still to match, the offset and the out-parameters. *)
Fixpoint matchTopic_at (remain : string) (parts : list part)
    (idx : nat) (last : nat) (out : topic_fields) (k : nat) {struct k}
    : option (list part * nat * topic_fields) :=
  match k with
  | O => Some (parts, last, out)
  | S k' =>
      match parts with
      | [] => None
      | it :: rest =>
          match matchTopic_body remain it rest idx last out with
          | inl _ => None
          | inr (last', out') => matchTopic_at remain rest (S idx) last' out' k'
          end
      end
  end.

Definition matchTopic (self : t) (remain : string) (out : topic_fields)
    : Z * topic_fields :=
  matchTopic_loop remain (m_parts self) 0 0 out.

End MqttReplacer.

(** ** MqttReplacers: the variable store *)

Module MqttReplacers.

(** One entry of [m_replacers]. *)
Definition entry : Type := string * MqttReplacer.t.

Record t : Type := mk {
  m_constants : gmap string string;
  (** the templates, in the iteration order of the [std::map] *)
  m_replacers : list entry
}.

(** [m_replacers.find(key)] *)
Fixpoint find_replacer (replacers : list entry) (key : string)
    : option MqttReplacer.t :=
  match replacers with
  | [] => None
  | (k, r) :: rest =>
      if String.eqb k key then Some r else find_replacer rest key
  end.

(** [m_replacers.erase(key)]: the map without [key]. *)
Fixpoint erase (key : string) (replacers : list entry) : list entry :=
  match replacers with
  | [] => []
  | (k, r) :: rest =>
      if String.eqb k key then erase key rest else (k, r) :: erase key rest
  end.

(** The number of elements [m_replacers.erase(key)] removes is positive. *)
Definition erases (key : string) (replacers : list entry) : bool :=
  bool_decide (is_Some (find_replacer replacers key)).

(** [operator[]] *)
Definition at_ (self : t) (key : string) : string :=
  match m_constants self !! key with
  | None => EmptyString
  | Some v => v
  end.

Definition uses (self : t) (field : string) : bool :=
  existsb (fun it : entry => MqttReplacer.has it.2 field) (m_replacers self).

(** The [const] overload of [get]. *)
Definition get (self : t) (key : string) (untilFirstEmpty onlyAlphanum : bool)
    (fallbackKey : string) : string :=
  match m_constants self !! key with
  | Some v => v
  | None =>
      match find_replacer (m_replacers self) key with
      | Some r => MqttReplacer.get r (m_constants self) untilFirstEmpty onlyAlphanum
      | None =>
          if negb (StdString.empty fallbackKey) then
            match m_constants self !! fallbackKey with
            | Some v => v
            | None =>
                match find_replacer (m_replacers self) fallbackKey with
                | Some r =>
                    MqttReplacer.get r (m_constants self) untilFirstEmpty onlyAlphanum
                | None => EmptyString
                end
            end
          else EmptyString
      end
  end.

Definition upper_of (key : string) : string :=
  StdString.transform toupper key.

(** [set(key, value, removeReplacer)] for a string value. *)
Definition set (self : t) (key value : string) (removeReplacer : bool)
    : bool * t :=
  let constants1 := <[key := value]> (m_constants self) in
  let replacers1 :=
    if removeReplacer then erase key (m_replacers self) else m_replacers self in
  if bool_decide (StdString.find_first_of key "-_" <> None) then
    (false, {| m_constants := constants1; m_replacers := replacers1 |})
  else
    let upper := upper_of key in
    if String.eqb upper key then
      (false, {| m_constants := constants1; m_replacers := replacers1 |})
    else
      let val := MqttReplacer.normalize value in
      (true,
       {| m_constants := <[upper := val]> constants1;
          m_replacers :=
            if removeReplacer then erase upper replacers1 else replacers1 |}).

(** [set(key, value)] for an [int] value. *)
Definition set_int (self : t) (key : string) (value : Z) : t :=
  {| m_constants := <[key := pretty value]> (m_constants self);
     m_replacers := m_replacers self |}.

(** *** reduce *)

(** What a run of [reduce] comes to.  [EndDeref] is the evaluation of
    [it->first] while [it == m_replacers.end()], which C++ leaves
    undefined. *)
Inductive outcome : Type :=
| Returned (st : t)
| EndDeref
| OutOfFuel.

(** One template folded into a constant: its key, the template, and the
    constants it was reduced against. *)
Record fold : Type := {
  fold_key : string;
  fold_template : MqttReplacer.t;
  fold_constants : gmap string string
}.

(** How one run of the [for] loop ends. *)
Inductive pass_end : Type :=
| PassEnd (st : t) (reduced : bool) (log : list fold)
| PassEndDeref.

Section Reduce.

(** The default of the third argument of [MqttReplacer::reduce] is
    declared in [mqtthandler.h], outside [src/]. *)
Variable onlyAlphanum : bool.

(** The [for] loop.  [before] are the entries in front of the iterator,
    [rest] those from the iterator on. *)
Fixpoint pass (constants : gmap string string) (before rest : list entry)
    (reduced : bool) (log : list fold) : pass_end :=
  match rest with
  | [] =>
      PassEnd {| m_constants := constants; m_replacers := before |} reduced log
  | (key, repl) :: rest' =>
      let '(ok, str) := MqttReplacer.reduce repl constants onlyAlphanum in
      if negb (MqttReplacer.isReducable repl constants) || negb ok then
        pass constants (before ++ [(key, repl)]) rest' reduced log
      else
        let '(restart, st1) :=
          set {| m_constants := constants; m_replacers := before ++ rest |}
              key str false in
        let log1 :=
          log ++ [{| fold_key := key; fold_template := repl;
                     fold_constants := constants |}] in
        (* it = m_replacers.erase(it) *)
        let replacers1 := before ++ rest' in
        if restart then
          match rest' with
          | [] => PassEndDeref
          | (next, _) :: _ =>
              let upper := upper_of next in
              if erases upper replacers1 then
                PassEnd {| m_constants := m_constants st1;
                           m_replacers := erase upper replacers1 |} true log1
              else pass (m_constants st1) before rest' true log1
          end
        else pass (m_constants st1) before rest' true log1
  end.

(** The [do ... while (reduced)] loop, at most [fuel] passes. *)
Fixpoint reduce_passes (fuel : nat) (st : t) (log : list fold)
    : outcome * list fold :=
  match fuel with
  | O => (OutOfFuel, log)
  | S fuel' =>
      match pass (m_constants st) [] (m_replacers st) false log with
      | PassEndDeref => (EndDeref, log)
      | PassEnd st1 reduced log1 =>
          if reduced then reduce_passes fuel' st1 log1
          else (Returned st1, log1)
      end
  end.

(** Every pass but the last erases a template, so one pass more than
    there are templates is enough. *)
Definition reduce_log (st : t) : outcome * list fold :=
  reduce_passes (S (List.length (m_replacers st))) st [].

Definition reduce (st : t) : outcome := (reduce_log st).1.

End Reduce.

End MqttReplacers.

(** ** MqttHandler: dispatch of inbound topics and the scheduler loop *)

(** The collaborators of the handler (the message catalog, the bus, the
    MQTT client library, the clock) are outside [src/].  Their calls are
    recorded as [action]s in the order the handler makes them; what they
    return is taken from the parameters of the sections below.  Calls of the
    logging functions are left out. *)

(** What the handler reads of a catalog [Message]. *)
Record Message : Type := {
  getCircuit : string;
  getName : string;
  isPassive : bool;
  getLastUpdateTime : Z
}.

(** The status codes of libmosquitto the handler tells apart. *)
Inductive mosq_err : Type :=
| MOSQ_ERR_SUCCESS
| MOSQ_ERR_INVAL
| MOSQ_ERR_NO_CONN
| MOSQ_ERR_CONN_REFUSED
| MOSQ_ERR_CONN_LOST
| MOSQ_ERR_ERRNO
| MOSQ_ERR_OTHER (code : Z).

Inductive action : Type :=
| ResetDefinitionsSince
| SetPollPriority (message : Message) (priority : Z)
| AddPollMessage (message : Message)
| ReadFromBus (message : Message) (data : string)
| PublishMessage (message : Message) (includeWithoutData : bool)
| Connect
| Reconnect
| CheckError (ret : mosq_err)
| PublishUptime (uptime : Z)
| PublishGlobalDefinitions
| PublishDefinitions
| PublishSignal (signal : bool)
| PublishUpdates
| ClearUpdates.

Definition mosq_err_eqb (a b : mosq_err) : bool :=
  match a, b with
  | MOSQ_ERR_SUCCESS, MOSQ_ERR_SUCCESS
  | MOSQ_ERR_INVAL, MOSQ_ERR_INVAL
  | MOSQ_ERR_NO_CONN, MOSQ_ERR_NO_CONN
  | MOSQ_ERR_CONN_REFUSED, MOSQ_ERR_CONN_REFUSED
  | MOSQ_ERR_CONN_LOST, MOSQ_ERR_CONN_LOST
  | MOSQ_ERR_ERRNO, MOSQ_ERR_ERRNO => true
  | MOSQ_ERR_OTHER x, MOSQ_ERR_OTHER y => x =? y
  | _, _ => false
  end.

Module MqttHandler.

Section NotifyTopic.

(** [UI_FIELD_SEPARATOR], a macro of the ebus library. *)
Variable UI_FIELD_SEPARATOR : ascii.

(** [parseInt(str, base, minValue, maxValue, &result)]: the value and
    whether [result] is [RESULT_OK]. *)
Variable parseInt : string -> Z -> Z -> Z -> Z * bool.

(** [m_messages->find(circuit, name, m_levels, isWrite, relaxed)] *)
Variable find : string -> string -> bool -> bool -> option Message.

(** [m_messages->findAll(circuit, name, m_levels, completeMatch, ...)] *)
Variable findAll : string -> string -> bool -> list Message.

(** The result of [message->setPollPriority(priority)]. *)
Variable setPollPriority : Message -> Z -> bool.

(** Whether [m_busHandler->readFromBus(message, data)] is [RESULT_OK]. *)
Variable readFromBus : Message -> string -> bool.

Variable g_topicReplacer : MqttReplacer.t.
Variable m_subscribeConfigRestartTopic : string.
Variable m_subscribeConfigRestartPayload : string.

(** [s.length() > 0 && s.find_last_of('*') == s.length()-1] *)
Definition isPrefixPattern (s : string) : bool :=
  Nat.ltb 0 (StdString.length s)
  && bool_decide (StdString.rfind_char s "*" = Some (StdString.length s - 1)%nat).

(** The [list] branch of [notifyTopic]. *)
Definition notifyList (circuit0 name0 data : string) : list action :=
  let circuitPrefix := isPrefixPattern circuit0 in
  let circuit :=
    if circuitPrefix
    then StdString.substr circuit0 0 (StdString.length circuit0 - 1)
    else circuit0 in
  let namePrefix := isPrefixPattern name0 in
  let name :=
    if namePrefix
    then StdString.substr name0 0 (StdString.length name0 - 1)
    else name0 in
  let messages := findAll circuit name (negb (circuitPrefix || namePrefix)) in
  let onlyWithData := negb (StdString.empty data) in
  flat_map (fun message : Message =>
    if (circuitPrefix
        && (negb (String.eqb (StdString.substr (getCircuit message) 0
                                (StdString.length circuit)) circuit)
            || (negb namePrefix && Nat.ltb 0 (StdString.length name)
                && negb (String.eqb (getName message) name))))
       || (namePrefix
           && (negb (String.eqb (StdString.substr (getName message) 0
                                   (StdString.length name)) name)
               || (negb circuitPrefix && Nat.ltb 0 (StdString.length circuit)
                   && negb (String.eqb (getCircuit message) circuit))))
    then []
    else if onlyWithData && (getLastUpdateTime message =? 0) then []
    else [PublishMessage message true]) messages.

(** The [?<priority>] suffix of a [get] payload: the position of the
    [?] that is honoured, if any. *)
Definition prioritySuffix (useData : string) : option nat :=
  match StdString.rfind_char useData "?" with
  | None => None
  | Some pos =>
      if Nat.ltb 0 pos
         && negb (bool_decide (String.get (pos - 1) useData = Some UI_FIELD_SEPARATOR))
      then None
      else Some pos
  end.

(** [notifyTopic] from the point where [message] has been found. *)
Definition notifyMessage (isWrite : bool) (message : Message) (data : string)
    : list action :=
  if negb (isPassive message) then
    let '(useData, acts) :=
      if negb isWrite && negb (StdString.empty data) then
        match prioritySuffix data with
        | None => (data, [])
        | Some pos =>
            let args := StdString.substr_from data (pos + 1) in
            let useData :=
              StdString.substr data 0 (if Nat.ltb 0 pos then pos - 1 else pos)%nat in
            if negb (StdString.empty args) then
              let '(pollPriority, ok) := parseInt args 10 1 9 in
              if ok && (pollPriority >? 0) then
                (useData,
                 SetPollPriority message pollPriority ::
                 (if setPollPriority message pollPriority
                  then [AddPollMessage message] else []))
              else (useData, [])
            else (useData, [])
        end
      else (data, []) in
    acts ++ ReadFromBus message useData ::
      (if readFromBus message useData then [PublishMessage message false] else [])
  else [PublishMessage message false].

Definition notifyTopic (topic data : string) : list action :=
  match StdString.rfind_char topic "/" with
  | None => []
  | Some pos =>
      if negb (StdString.empty m_subscribeConfigRestartTopic)
         && String.eqb topic m_subscribeConfigRestartTopic
      then
        if StdString.empty m_subscribeConfigRestartPayload
           || String.eqb data m_subscribeConfigRestartPayload
        then [ResetDefinitionsSince] else []
      else
        let direction := StdString.substr_from topic (pos + 1) in
        if StdString.empty direction then []
        else
          let isWrite := String.eqb direction "set" in
          let isList := negb isWrite && String.eqb direction "list" in
          if negb isWrite && negb isList && negb (String.eqb direction "get")
          then []
          else
            let '(_, out) :=
              MqttReplacer.matchTopic g_topicReplacer
                (StdString.substr topic 0 pos) MqttReplacer.no_fields in
            let circuit := MqttReplacer.tf_circuit out in
            let name := MqttReplacer.tf_name out in
            if isList then notifyList circuit name data
            else if StdString.empty name then []
            else
              let found :=
                match find circuit name isWrite false with
                | Some message => Some message
                | None => find circuit name isWrite true
                end in
              match found with
              | None => []
              | Some message => notifyMessage isWrite message data
              end
  end.

(** What the handler does with a [get] payload without a suffix: the
    read with the payload as it is, and the publication of the value
    when the read succeeds. *)
Definition plainRead (message : Message) (data : string) : list action :=
  ReadFromBus message data ::
    (if readFromBus message data then [PublishMessage message false] else []).

(** [topic] is a [get] topic that the handler resolves to [message]:
    it ends in [/get], is not the restart topic, the subscribe template
    yields a name, and the catalog has [message] for the circuit and the
    name at the exact or at the relaxed lookup. *)
Definition resolvesGet (topic : string) (message : Message) : Prop :=
  exists pos : nat,
    StdString.rfind_char topic "/" = Some pos
    /\ (StdString.empty m_subscribeConfigRestartTopic
        || negb (String.eqb topic m_subscribeConfigRestartTopic)) = true
    /\ StdString.substr_from topic (pos + 1) = "get"
    /\ let out :=
         (MqttReplacer.matchTopic g_topicReplacer (StdString.substr topic 0 pos)
            MqttReplacer.no_fields).2 in
       StdString.empty (MqttReplacer.tf_name out) = false
       /\ match find (MqttReplacer.tf_circuit out) (MqttReplacer.tf_name out)
                   false false with
          | Some m => Some m
          | None => find (MqttReplacer.tf_circuit out) (MqttReplacer.tf_name out)
                      false true
          end = Some message.

End NotifyTopic.

(** *** The scheduler loop *)

(** The members of the handler the loop reads and writes. *)
Record t : Type := {
  m_mosquitto : bool;  (** whether the client handle is non-null *)
  m_connected : bool;
  m_initialConnectFailed : bool;
  m_lastErrorLogTime : Z;
  m_definitionsSince : Z;
  m_hasDefinitionTopic : bool
}.

(** What the collaborators return during one iteration of the loop. *)
Record tick : Type := {
  loop_ret : mosq_err;     (** [mosquitto_loop] *)
  connect_ret : mosq_err;  (** [mosquitto_connect] or [mosquitto_reconnect], when called *)
  error_time : Z;          (** [time(&now)] in [handleTraffic], when called *)
  now_time : Z;            (** [time(&now)] in [run] *)
  definitions_time : Z;    (** [time(&m_definitionsSince)], when called *)
  task_time : Z;           (** [time(&lastTaskRun)], when called *)
  hasSignal : bool;        (** [m_busHandler->hasSignal()], when called *)
  hasUpdates : bool;       (** [!m_updatedMessages.empty()] *)
  updates_time : Z;        (** [time(&lastUpdates)], when called *)
  wait5 : bool;            (** [Wait(5)], when called *)
  wait1 : bool             (** [Wait(1)], when called *)
}.

Definition isConnLost (ret : mosq_err) : bool :=
  mosq_err_eqb ret MOSQ_ERR_NO_CONN || mosq_err_eqb ret MOSQ_ERR_CONN_LOST.

(** [handleTraffic]: the result, the handler afterwards, and the calls
    made.  [mosquitto_loop] enters by its return code.  The callbacks it
    runs ([on_message], which ends in [notifyTopic], and [on_connect]) make
    no connection attempt and write none of [m_connected],
    [m_initialConnectFailed] and [m_lastErrorLogTime]; what they publish,
    and the reset of [m_definitionsSince] at the restart topic, are the
    calls of [notifyTopic] and not among those of an iteration. *)
Definition handleTraffic (self : t) (allowReconnect : bool) (i : tick)
    : bool * t * list action :=
  if negb (m_mosquitto self) then (false, self, [])
  else
    let ret0 := loop_ret i in
    let '(ret, initialConnectFailed, acts) :=
      if negb (m_connected self) && isConnLost ret0 && allowReconnect then
        if m_initialConnectFailed self then
          (connect_ret i,
           if mosq_err_eqb (connect_ret i) MOSQ_ERR_SUCCESS then false
           else m_initialConnectFailed self,
           [Connect])
        else (connect_ret i, m_initialConnectFailed self, [Reconnect])
      else (ret0, m_initialConnectFailed self, []) in
    let connected :=
      if negb (m_connected self) && mosq_err_eqb ret MOSQ_ERR_SUCCESS then true
      else m_connected self in
    let self1 :=
      {| m_mosquitto := m_mosquitto self;
         m_connected := connected;
         m_initialConnectFailed := initialConnectFailed;
         m_lastErrorLogTime := m_lastErrorLogTime self;
         m_definitionsSince := m_definitionsSince self;
         m_hasDefinitionTopic := m_hasDefinitionTopic self |} in
    if negb connected || mosq_err_eqb ret MOSQ_ERR_SUCCESS then (false, self1, acts)
    else if isConnLost ret || mosq_err_eqb ret MOSQ_ERR_CONN_REFUSED then
      (true,
       {| m_mosquitto := m_mosquitto self;
          m_connected := false;
          m_initialConnectFailed := initialConnectFailed;
          m_lastErrorLogTime := m_lastErrorLogTime self;
          m_definitionsSince := m_definitionsSince self;
          m_hasDefinitionTopic := m_hasDefinitionTopic self |},
       acts)
    else if error_time i >? m_lastErrorLogTime self + 10 then
      (true,
       {| m_mosquitto := m_mosquitto self;
          m_connected := connected;
          m_initialConnectFailed := initialConnectFailed;
          m_lastErrorLogTime := error_time i;
          m_definitionsSince := m_definitionsSince self;
          m_hasDefinitionTopic := m_hasDefinitionTopic self |},
       acts ++ [CheckError ret])
    else (true, self1, acts).

(** The handler and the local variables of [run] at the head of the
    [while] loop. *)
Record loop_state : Type := {
  self : t;
  lastTaskRun : Z;
  start : Z;
  lastSignal : Z;
  lastUpdates : Z;
  signal : bool;
  allowReconnect : bool
}.

(** The state in which [run] enters the loop; [now] is the first reading
    of the clock. *)
Definition run_init (handler : t) (now : Z) : loop_state :=
  {| self := handler; lastTaskRun := now; start := now; lastSignal := 0;
     lastUpdates := 0; signal := false; allowReconnect := false |}.

(** Whether the periodic tasks run in this iteration: the branch
    [now > lastTaskRun+15], taken when the clock is not behind [start]. *)
Definition timerFired (st : loop_state) (i : tick) : bool :=
  negb (now_time i <? start st) && (now_time i >? lastTaskRun st + 15).

(** What one iteration leaves behind. *)
Record iteration_result : Type := {
  next : loop_state;
  acts : list action;
  continues : bool  (** [false] when the iteration ends in [break] *)
}.

Definition set_definitionsSince (h : t) (since : Z) : t :=
  {| m_mosquitto := m_mosquitto h;
     m_connected := m_connected h;
     m_initialConnectFailed := m_initialConnectFailed h;
     m_lastErrorLogTime := m_lastErrorLogTime h;
     m_definitionsSince := since;
     m_hasDefinitionTopic := m_hasDefinitionTopic h |}.

(** The body of the [while] loop of [run].  The publication of the
    definitions and of the updated messages is recorded as one action
    each. *)
Definition iteration (st : loop_state) (i : tick) : iteration_result :=
  let wasConnected := m_connected (self st) in
  let '(needsWait0, h1, acts1) := handleTraffic (self st) (allowReconnect st) i in
  let reconnected := negb wasConnected && m_connected h1 in
  let now := now_time i in
  let connected := m_connected h1 in
  (* the clock-skew branch, the periodic tasks, or neither *)
  let '(allow, sendSignal, lastSignal1, lastTaskRun1, h2, needsWait, acts2) :=
    if now <? start st then
      (false, reconnected,
       if now <? lastSignal st then lastSignal st - (lastTaskRun st - now)
       else lastSignal st,
       now, h1, needsWait0, [])
    else if now >? lastTaskRun st + 15 then
      let uptime := if connected then [PublishUptime (now - start st)] else [] in
      let global := connected && (m_definitionsSince h1 =? 0) in
      let h1' := if global then set_definitionsSince h1 1 else h1 in
      let defs := connected && m_hasDefinitionTopic h1 in
      (true, reconnected || connected, lastSignal st, task_time i,
       if defs then set_definitionsSince h1' (definitions_time i) else h1',
       needsWait0 || defs,
       uptime ++ (if global then [PublishGlobalDefinitions] else [])
              ++ (if defs then [PublishDefinitions] else []))
    else (false, reconnected, lastSignal st, lastTaskRun st, h1, needsWait0, []) in
  let '(lastSignal2, signal2, acts3) :=
    if sendSignal then
      if hasSignal i then
        (now, true,
         if negb (signal st) || reconnected then [PublishSignal true] else [])
      else
        (lastSignal1, if signal st || reconnected then false else signal st,
         if signal st || reconnected then [PublishSignal false] else [])
    else (lastSignal1, signal st, []) in
  let '(lastUpdates1, acts4) :=
    if hasUpdates i then
      if connected then (updates_time i, [PublishUpdates])
      else (lastUpdates st, [ClearUpdates])
    else (lastUpdates st, []) in
  {| next := {| self := h2; lastTaskRun := lastTaskRun1; start := start st;
                lastSignal := lastSignal2; lastUpdates := lastUpdates1;
                signal := signal2; allowReconnect := allow |};
     acts := acts1 ++ acts2 ++ acts3 ++ acts4;
     continues :=
       negb ((negb connected && negb (wait5 i))
             || (needsWait && negb (wait1 i))) |}.

(** One entry of the trace of [run]: the state at the head of the loop,
    what the collaborators returned, and the calls made. *)
Record step : Type := {
  before : loop_state;
  input : tick;
  calls : list action
}.

(** The [while] loop over the iterations in which [isRunning()] holds;
    the loop also ends at a [break]. *)
Fixpoint run_loop (st : loop_state) (ticks : list tick) : list step :=
  match ticks with
  | [] => []
  | i :: ticks' =>
      let r := iteration st i in
      {| before := st; input := i; calls := acts r |} ::
        (if continues r then run_loop (next r) ticks' else [])
  end.

Definition run (handler : t) (now : Z) (ticks : list tick) : list step :=
  run_loop (run_init handler now) ticks.

(** A call of [mosquitto_connect] or [mosquitto_reconnect]. *)
Definition isAttempt (a : action) : bool :=
  match a with Connect | Reconnect => true | _ => false end.

End MqttHandler.

(** ** Vocabulary of the statements *)

(** A part is a field named [field], the test [has] makes. *)
Definition isFieldNamed (field : string) (it : part) : bool :=
  (it.2 >=? 0) && String.eqb it.1 field.

(** How often a field named [field] occurs in a part sequence. *)
Definition count_field (parts : list part) (field : string) : nat :=
  List.length (List.filter (isFieldNamed field) parts).

(** A part that [reduce] passes without stopping: a literal, or a field
    with a non-empty value. *)
Definition resolved (values : gmap string string) (it : part) : Prop :=
  it.2 < 0 \/ exists v, values !! it.1 = Some v /\ v <> EmptyString.

(** A field whose name is not one of the known ones. *)
Definition isUnknownField (it : part) : Prop := knownFieldCount <= it.2.

(** The indices of the known fields of a part sequence, in order. *)
Definition knownIndices (parts : list part) : list Z :=
  List.filter (fun i => (0 <=? i) && (i <? knownFieldCount)) (List.map snd parts).

(** The key has a [-] or a [_] in it. *)
Definition hasDashOrUnderscore (key : string) : Prop :=
  exists (i : nat) (c : ascii),
    String.get i key = Some c /\ (c = "-"%char \/ c = "_"%char).

(** A template that [MqttReplacers::reduce] folds into a constant: all its
    fields are constants and [MqttReplacer::reduce] reports it resolved. *)
Definition foldable (onlyAlphanum : bool) (constants : gmap string string)
    (it : MqttReplacers.entry) : bool :=
  MqttReplacer.isReducable it.2 constants
  && (MqttReplacer.reduce it.2 constants onlyAlphanum).1.

(** A store with the constant [bar=x] and the single template
    [foo=%bar]. *)
Definition fooBar : MqttReplacers.t :=
  {| MqttReplacers.m_constants := {[ "bar" := "x" ]};
     MqttReplacers.m_replacers :=
       [("foo", {| MqttReplacer.m_parts := MqttReplacer.scan "%bar";
                   MqttReplacer.m_emptyIfMissing := false |})] |}.

(** The store of a handler whose integration file has the one template
    [definition-topic], once [run] has set the circuit and the name of a
    message in it: the template [mqtttopic] is the last one. *)
Definition messageStore : MqttReplacers.t :=
  let templates :=
    {| MqttReplacers.m_constants := ∅;
       MqttReplacers.m_replacers :=
         [("definition-topic",
           {| MqttReplacer.m_parts := MqttReplacer.scan "ebusd/%circuit/%name/config";
              MqttReplacer.m_emptyIfMissing := false |});
          ("mqtttopic", MqttReplacer.ensureDefault MqttReplacer.init)] |} in
  (MqttReplacers.set (MqttReplacers.set templates "circuit" "heating" true).2
     "name" "temp" true).2.

(** The store [fooBar] with the template [mqtttopic] after [foo]. *)
Definition fooBarTopic : MqttReplacers.t :=
  {| MqttReplacers.m_constants := {[ "bar" := "x" ]};
     MqttReplacers.m_replacers :=
       [("foo", {| MqttReplacer.m_parts := MqttReplacer.scan "%bar";
                   MqttReplacer.m_emptyIfMissing := false |});
        ("mqtttopic", MqttReplacer.ensureDefault MqttReplacer.init)] |}.

(** Modelled from the spec: [parseInt] belongs to the ebus library, outside
    [src/], and the spec has the suffix of a [get] payload as
    [?<priority 1-9>].  A non-empty string of decimal digits is read as a
    number and accepted when it lies within [minValue] and [maxValue]; the
    examples below use it for the parameter [parseInt]. *)
Fixpoint parseDigits (str : string) (acc : Z) : option Z :=
  match str with
  | EmptyString => Some acc
  | String c str' =>
      if isdigit c
      then parseDigits str' (10 * acc + Z.of_nat (nat_of_ascii c - 48))
      else None
  end.

Definition parseDecimal (str : string) (base minValue maxValue : Z) : Z * bool :=
  match str with
  | EmptyString => (0, false)
  | _ =>
      match parseDigits str 0 with
      | Some n => if (minValue <=? n) && (n <=? maxValue) then (n, true) else (0, false)
      | None => (0, false)
      end
  end.

(** A catalog with the one active message [heating temp]. *)
Definition heatingTemp : Message :=
  {| getCircuit := "heating"; getName := "temp"; isPassive := false;
     getLastUpdateTime := 0 |}.

Definition findHeatingTemp (circuit name : string) (isWrite relaxed : bool)
    : option Message :=
  if String.eqb circuit "heating" && String.eqb name "temp" && negb isWrite
  then Some heatingTemp else None.

(** The topic template [ebusd/%circuit/%name/x], which ends in a literal. *)
Definition suffixTopic : MqttReplacer.t :=
  {| MqttReplacer.m_parts := MqttReplacer.scan "ebusd/%circuit/%name/x";
     MqttReplacer.m_emptyIfMissing := false |}.

(** [notifyTopic] of a handler with that catalog and template, [;] as the
    field separator, no restart topic, and a bus on which every priority
    change and every read succeeds. *)
Definition notifyHeating (topic data : string) : list action :=
  MqttHandler.notifyTopic ";" parseDecimal findHeatingTemp (fun _ _ _ => [])
    (fun _ _ => true) (fun _ _ => true) suffixTopic "" "" topic data.

(** A handler that has lost its connection. *)
Definition disconnected : MqttHandler.t :=
  {| MqttHandler.m_mosquitto := true;
     MqttHandler.m_connected := false;
     MqttHandler.m_initialConnectFailed := false;
     MqttHandler.m_lastErrorLogTime := 0;
     MqttHandler.m_definitionsSince := 0;
     MqttHandler.m_hasDefinitionTopic := false |}.

(** An iteration in which [mosquitto_loop] reports no connection, the clock
    reads [now], and a reconnect, if made, succeeds. *)
Definition noConnAt (now : Z) : MqttHandler.tick :=
  {| MqttHandler.loop_ret := MOSQ_ERR_NO_CONN;
     MqttHandler.connect_ret := MOSQ_ERR_SUCCESS;
     MqttHandler.error_time := now;
     MqttHandler.now_time := now;
     MqttHandler.definitions_time := now;
     MqttHandler.task_time := now;
     MqttHandler.hasSignal := true;
     MqttHandler.hasUpdates := false;
     MqttHandler.updates_time := now;
     MqttHandler.wait5 := true;
     MqttHandler.wait1 := true |}.

(** Three iterations of a loop entered at time 100: at 105 nothing is due,
    at 116 the periodic tasks run, at 121 the connection is made again. *)
Definition reconnectTicks : list MqttHandler.tick :=
  [noConnAt 105; noConnAt 116; noConnAt 121].


(** A string without a slash. *)
Fixpoint noSlash (s : string) : bool :=
  match s with
  | EmptyString => true
  | String c s' => negb (Ascii.eqb c "/") && noSlash s'
  end.

(** What a part contributes to the rendered string: its text for a literal,
    the value of the field otherwise. *)
Definition partText (values : gmap string string) (it : part) : string :=
  if it.2 <? 0 then it.1 else default EmptyString (values !! it.1).

(** The rendered string of a part sequence all of whose fields have
    values. *)
Fixpoint render (values : gmap string string) (parts : list part) : string :=
  match parts with
  | [] => EmptyString
  | it :: rest => partText values it +:+ render values rest
  end.

(** The value set supplies a field with a value that is not empty and has
    no slash in it. *)
Definition supplied (values : gmap string string) (it : part) : Prop :=
  0 <= it.2 ->
  exists v, values !! it.1 = Some v /\ v <> EmptyString /\ noSlash v = true.

(** The literal skeleton delimits the fields: every field but a last one
    is followed by a literal that starts with a slash. *)
Fixpoint delimited (parts : list part) : Prop :=
  match parts with
  | [] => True
  | it :: rest =>
      (0 <= it.2 ->
       match rest with
       | [] => True
       | next :: _ => next.2 < 0 /\ exists t, next.1 = String "/" t
       end)
      /\ delimited rest
  end.

(** The out-parameters in which every field holds the value rendered
    in. *)
Fixpoint recovered (values : gmap string string) (parts : list part)
    (out : MqttReplacer.topic_fields) : MqttReplacer.topic_fields :=
  match parts with
  | [] => out
  | it :: rest =>
      recovered values rest
        (if it.2 <? 0 then out
         else MqttReplacer.store_value it.2 (default EmptyString (values !! it.1)) out)
  end.

(** The out-parameters [matchTopic] leaves on the rendered string [whole]:
    a field that is the last part holds [whole]. *)
Fixpoint matched (whole : string) (values : gmap string string)
    (parts : list part) (out : MqttReplacer.topic_fields)
    : MqttReplacer.topic_fields :=
  match parts with
  | [] => out
  | it :: rest =>
      if it.2 <? 0 then matched whole values rest out
      else
        match rest with
        | [] => MqttReplacer.store_value it.2 whole out
        | _ :: _ =>
            matched whole values rest
              (MqttReplacer.store_value it.2
                 (default EmptyString (values !! it.1)) out)
        end
  end.

(** The default topic template [ebusd/%circuit/%name]. *)
Definition defaultTopic : MqttReplacer.t :=
  MqttReplacer.ensureDefault MqttReplacer.init.

Definition heating_temp : gmap string string :=
  <["circuit" := "heating"]> (<["name" := "temp"]> ∅).

(** The optional definition [x?=%unit]. *)
Definition optionalUnit : MqttReplacer.t :=
  {| MqttReplacer.m_parts := MqttReplacer.scan "%unit";
     MqttReplacer.m_emptyIfMissing := true |}.

(** The template [%circuit/%circuit], parsed without the check for
    duplicates. *)
Definition twiceCircuit : MqttReplacer.t :=
  (MqttReplacer.parse MqttReplacer.init "%circuit/%circuit" true false false).2.

(** ** The integration settings: parseIntegration and the loop that reads
    the lines *)

Module Integration.

(** [m_replacers[key] = r]: the entry of [key] is replaced, or a new entry
    is put at the place the order of the keys gives it. *)
Fixpoint assign (key : string) (r : MqttReplacer.t)
    (replacers : list MqttReplacers.entry) : list MqttReplacers.entry :=
  match replacers with
  | [] => [(key, r)]
  | (k, r0) :: rest =>
      if String.eqb k key then (key, r) :: rest
      else if String.ltb key k then (key, r) :: (k, r0) :: rest
      else (k, r0) :: assign key r rest
  end.

(** [line[0] == c] for a line that is not empty. *)
Definition startsWith (c : ascii) (line : string) : bool :=
  bool_decide (String.get 0 line = Some c).

Section ParseIntegration.

(** [FileReader::trim], a function of the ebus library. *)
Variable trim : string -> string.

(** What [m_replacers[key]] constructs for a key that has no template:
    the default argument of the constructor is in [mqtthandler.h]. *)
Variable newReplacer : MqttReplacer.t.

(** The default of the third argument of [MqttReplacers::set], declared in
    [mqtthandler.h]. *)
Variable removeReplacer : bool.

Definition parseIntegration (self : MqttReplacers.t) (line : string)
    : MqttReplacers.t :=
  if StdString.empty line then self
  else
    match StdString.find_char line "=" 0 with
    | None => self
    | Some pos =>
        if Nat.eqb pos 0 then self
        else
          let emptyIfMissing :=
            bool_decide (String.get (pos - 1) line = Some "?"%char) in
          let key :=
            trim (if emptyIfMissing
                  then StdString.substr line 0 (pos - 1)
                  else StdString.substr line 0 pos) in
          let value := trim (StdString.substr_from line (pos + 1)) in
          if bool_decide (StdString.find_char value "%" 0 = None) then
            (MqttReplacers.set self key value removeReplacer).2
          else
            let r0 :=
              match MqttReplacers.find_replacer (MqttReplacers.m_replacers self) key with
              | Some r => r
              | None => newReplacer
              end in
            let r1 := (MqttReplacer.parse r0 value false false emptyIfMissing).2 in
            {| MqttReplacers.m_constants := MqttReplacers.m_constants self;
               MqttReplacers.m_replacers :=
                 assign key r1 (MqttReplacers.m_replacers self) |}
    end.

(** The loop of the constructor over the lines of the integration file,
    with [last] the entry collected so far, and the call of
    [parseIntegration] that follows the loop. *)
Fixpoint readLines (self : MqttReplacers.t) (last : string) (lines : list string)
    : MqttReplacers.t :=
  match lines with
  | [] => parseIntegration self last
  | line :: rest =>
      if StdString.empty line then
        readLines (parseIntegration self last) EmptyString rest
      else if startsWith "#" line then readLines self last rest
      else if StdString.empty last then readLines self line rest
      else if startsWith (ascii_of_nat 9) line || startsWith " " line then
        readLines self (last +:+ String (ascii_of_nat 10) EmptyString +:+ line) rest
      else readLines (parseIntegration self last) line rest
  end.

End ParseIntegration.

End Integration.

(** ** Vocabulary of the further statements *)

(** Every character of a string satisfies [p]. *)
Fixpoint allChars (p : ascii -> bool) (s : string) : bool :=
  match s with
  | EmptyString => true
  | String c s' => p c && allChars p s'
  end.

(** A character that [parse] copies into a literal as it is. *)
Definition isPlainChar (ch : ascii) : bool :=
  negb (Ascii.eqb ch "%") && negb (Ascii.eqb ch MqttReplacer.NUL).

(** A part as [parse] builds it: the text is not empty; a literal has the
    index -1, a field has a name of letters and underscores and the index
    [makeField] gives it. *)
Definition wellFormedPart (it : part) : Prop :=
  it.1 <> EmptyString
  /\ (it.2 = -1
      \/ (allChars MqttReplacer.isFieldChar it.1 = true /\ it = makeField it.1 true)).

(** The invariant of the scanning loop. *)
Definition scan_inv (st : MqttReplacer.scan_state) : Prop :=
  Forall wellFormedPart (MqttReplacer.sc_parts st)
  /\ (MqttReplacer.sc_inField st = true -> allChars MqttReplacer.isFieldChar (MqttReplacer.sc_stack st) = true).

(** A key for which [set] writes no upper-cased mirror. *)
Definition plainKey (key : string) : Prop :=
  hasDashOrUnderscore key \/ MqttReplacers.upper_of key = key.

(** A line that starts an entry of its own: not empty, no comment, no
    continuation. *)
Definition startsEntry (line : string) : bool :=
  negb (StdString.empty line)
  && negb (Integration.startsWith "#" line)
  && negb (Integration.startsWith (ascii_of_nat 9) line)
  && negb (Integration.startsWith " " line).

(** [topic] is a [set] topic that the handler resolves to [message]; see
    [MqttHandler.resolvesGet]. *)
Definition resolvesSet (find : string -> string -> bool -> bool -> option Message)
    (g_topicReplacer : MqttReplacer.t) (m_subscribeConfigRestartTopic : string)
    (topic : string) (message : Message) : Prop :=
  exists pos : nat,
    StdString.rfind_char topic "/" = Some pos
    /\ (StdString.empty m_subscribeConfigRestartTopic
        || negb (String.eqb topic m_subscribeConfigRestartTopic)) = true
    /\ StdString.substr_from topic (pos + 1) = "set"
    /\ let out :=
         (MqttReplacer.matchTopic g_topicReplacer (StdString.substr topic 0 pos)
            MqttReplacer.no_fields).2 in
       StdString.empty (MqttReplacer.tf_name out) = false
       /\ match find (MqttReplacer.tf_circuit out) (MqttReplacer.tf_name out)
                   true false with
          | Some m => Some m
          | None => find (MqttReplacer.tf_circuit out) (MqttReplacer.tf_name out)
                      true true
          end = Some message.

(** A publish that the body of the loop of [run] makes itself: the uptime,
    the definitions, the signal, the updated messages. *)
Definition isLoopPublish (a : action) : bool :=
  match a with
  | PublishUptime _ | PublishGlobalDefinitions
  | PublishDefinitions | PublishSignal _ | PublishUpdates => true
  | _ => false
  end.

(** The call [check(ret, "communication error")] of [handleTraffic]. *)
Definition isCheckError (a : action) : bool :=
  match a with CheckError _ => true | _ => false end.

(** A call of [mosquitto_connect]. *)
Definition isConnect (a : action) : bool :=
  match a with Connect => true | _ => false end.

(** The variable store with the constants [circuit] and [name] and the one
    template [definition-topic]. *)
Definition definitionStore : MqttReplacers.t :=
  {| MqttReplacers.m_constants := heating_temp;
     MqttReplacers.m_replacers :=
       [("definition-topic",
         {| MqttReplacer.m_parts := MqttReplacer.scan "ebusd/%circuit/%name/config";
            MqttReplacer.m_emptyIfMissing := false |})] |}.

(** The passive message [outside temp], which has been updated. *)
Definition outsideTemp : Message :=
  {| getCircuit := "outside"; getName := "temp"; isPassive := true;
     getLastUpdateTime := 1700000000 |}.

(** A catalog in which [heating temp] can be read and written and
    [outside temp] can be read. *)
Definition findInCatalog (circuit name : string) (isWrite relaxed : bool)
    : option Message :=
  if String.eqb circuit "heating" && String.eqb name "temp" then Some heatingTemp
  else if String.eqb circuit "outside" && String.eqb name "temp" && negb isWrite
  then Some outsideTemp
  else None.

(** [notifyTopic] of a handler with that catalog, the template
    [ebusd/%circuit/%name/x], [;] as the field separator, no restart topic,
    and a bus on which every priority change and every read succeeds. *)
Definition notifyCatalog (topic data : string) : list action :=
  MqttHandler.notifyTopic ";" parseDecimal findInCatalog
    (fun _ _ _ => [heatingTemp; outsideTemp])
    (fun _ _ => true) (fun _ _ => true) suffixTopic "" "" topic data.

(** A handler that is connected. *)
Definition connected : MqttHandler.t :=
  {| MqttHandler.m_mosquitto := true;
     MqttHandler.m_connected := true;
     MqttHandler.m_initialConnectFailed := false;
     MqttHandler.m_lastErrorLogTime := 0;
     MqttHandler.m_definitionsSince := 0;
     MqttHandler.m_hasDefinitionTopic := false |}.

(** An iteration in which [mosquitto_loop] fails with [MOSQ_ERR_ERRNO] and
    the clock reads [now]. *)
Definition errnoAt (now : Z) : MqttHandler.tick :=
  {| MqttHandler.loop_ret := MOSQ_ERR_ERRNO;
     MqttHandler.connect_ret := MOSQ_ERR_SUCCESS;
     MqttHandler.error_time := now;
     MqttHandler.now_time := now;
     MqttHandler.definitions_time := now;
     MqttHandler.task_time := now;
     MqttHandler.hasSignal := true;
     MqttHandler.hasUpdates := false;
     MqttHandler.updates_time := now;
     MqttHandler.wait5 := true;
     MqttHandler.wait1 := true |}.

(** An iteration in which [mosquitto_loop] reports no connection, the clock
    reads [now], and a reconnect, if made, fails with [MOSQ_ERR_ERRNO]. *)
Definition noConnFailAt (now : Z) : MqttHandler.tick :=
  {| MqttHandler.loop_ret := MOSQ_ERR_NO_CONN;
     MqttHandler.connect_ret := MOSQ_ERR_ERRNO;
     MqttHandler.error_time := now;
     MqttHandler.now_time := now;
     MqttHandler.definitions_time := now;
     MqttHandler.task_time := now;
     MqttHandler.hasSignal := true;
     MqttHandler.hasUpdates := false;
     MqttHandler.updates_time := now;
     MqttHandler.wait5 := true;
     MqttHandler.wait1 := true |}.

(** Four iterations, 16 seconds apart, of a loop entered at time 100. *)
Definition slowTicks : list MqttHandler.tick :=
  [noConnFailAt 116; noConnFailAt 132; noConnFailAt 148; noConnFailAt 164].

(** Three such iterations of a loop entered at time 100. *)
Definition errnoTicks : list MqttHandler.tick :=
  [errnoAt 101; errnoAt 105; errnoAt 112].

(** * Properties of strings *)

Section StringFacts.

Lemma append_nil_l (b : string) : "" +:+ b = b.
Proof. reflexivity. Qed.

Lemma append_cons (x : ascii) (a b : string) :
  String x a +:+ b = String x (a +:+ b).
Proof. reflexivity. Qed.

Lemma append_assoc (a b c : string) : (a +:+ b) +:+ c = a +:+ (b +:+ c).
Proof.
  induction a as [|x a IH]; [done|]. by rewrite !append_cons, IH.
Qed.

Lemma append_nil_r (a : string) : a +:+ "" = a.
Proof. induction a as [|x a IH]; [done|]. by rewrite append_cons, IH. Qed.

Lemma length_append (a b : string) :
  String.length (a +:+ b) = (String.length a + String.length b)%nat.
Proof.
  induction a as [|x a IH]; [done|]. rewrite append_cons. simpl. by rewrite IH.
Qed.

Lemma substring_skip (pre s : string) (n : nat) :
  String.substring (String.length pre) n (pre +:+ s) = String.substring 0 n s.
Proof.
  induction pre as [|x pre IH]; [done|]. rewrite append_cons. simpl. exact IH.
Qed.

Lemma substring_prefix (v rest : string) :
  String.substring 0 (String.length v) (v +:+ rest) = v.
Proof.
  induction v as [|x v IH].
  - rewrite append_nil_l. by destruct rest.
  - rewrite append_cons. simpl. by rewrite IH.
Qed.

Lemma index_skip (pre s needle : string) (n : nat) :
  String.index (String.length pre + n) needle (pre +:+ s)
  = (fun m => (String.length pre + m)%nat) <$> String.index n needle s.
Proof.
  induction pre as [|x pre IH].
  - rewrite append_nil_l. simpl. by destruct (String.index n needle s).
  - rewrite append_cons. simpl. rewrite IH. by destruct (String.index n needle s).
Qed.

Lemma index_skip_0 (pre s needle : string) :
  String.index (String.length pre) needle (pre +:+ s)
  = (fun m => (String.length pre + m)%nat) <$> String.index 0 needle s.
Proof. rewrite <- index_skip. by rewrite Nat.add_0_r. Qed.

Lemma prefix_append (a b : string) : String.prefix a (a +:+ b) = true.
Proof. apply String.prefix_correct. apply substring_prefix. Qed.

Lemma index_prefix (s1 s2 : string) :
  String.prefix s1 s2 = true -> String.index 0 s1 s2 = Some 0%nat.
Proof.
  intros H. destruct s2 as [|b s2].
  - destruct s1; [done|discriminate].
  - unfold String.index. by rewrite H.
Qed.

Lemma prefix_cons_ne (a b : ascii) (s1 s2 : string) :
  a <> b -> String.prefix (String a s1) (String b s2) = false.
Proof. intros Hne. simpl. by destruct (ascii_dec a b). Qed.

Lemma index_cons_0 (needle : string) (b : ascii) (s : string) :
  String.index 0 needle (String b s)
  = if String.prefix needle (String b s) then Some 0%nat
    else S <$> String.index 0 needle s.
Proof.
  unfold String.index at 1. fold String.index.
  destruct (String.prefix needle (String b s)); [done|].
  by destruct (String.index 0 needle s).
Qed.

Lemma eqb_slash_ne (c : ascii) :
  negb (Ascii.eqb c "/") = true -> "/"%char <> c.
Proof.
  intros H <-. discriminate H.
Qed.

Lemma index_after_noSlash (v t rest : string) :
  noSlash v = true ->
  String.index 0 (String "/" t) (v +:+ String "/" t +:+ rest)
  = Some (String.length v).
Proof.
  intros Hv. induction v as [|c v IH].
  - rewrite append_nil_l. apply index_prefix, prefix_append.
  - simpl in Hv. apply andb_true_iff in Hv as [Hc Hv].
    rewrite append_cons, index_cons_0, prefix_cons_ne by by apply eqb_slash_ne.
    by rewrite (IH Hv).
Qed.

Lemma index_none_noSlash (v : string) :
  noSlash v = true -> String.index 0 "/" v = None.
Proof.
  induction v as [|c v IH]; [done|].
  intros Hv. simpl in Hv. apply andb_true_iff in Hv as [Hc Hv].
  rewrite index_cons_0, prefix_cons_ne by by apply eqb_slash_ne.
  by rewrite (IH Hv).
Qed.

End StringFacts.

(** * Properties of the topic template *)

Section MqttReplacerFacts.

Import MqttReplacer.

(** ** matchTopic *)

Lemma matchTopic_at_loop remain k : forall parts idx last out parts' last' out',
  matchTopic_at remain parts idx last out k = Some (parts', last', out') ->
  matchTopic_loop remain parts idx last out
  = matchTopic_loop remain parts' (idx + k) last' out'.
Proof.
  induction k as [|k IH]; intros parts idx last out parts' last' out' H.
  - simpl in H. simplify_eq. by rewrite Nat.add_0_r.
  - destruct parts as [|it rest]; simpl in H; [discriminate|].
    simpl. destruct (matchTopic_body remain it rest idx last out) as [r|[l o]];
      [discriminate|].
    rewrite (IH _ _ _ _ _ _ _ H). f_equal. lia.
Qed.

Lemma matchTopic_body_literal_mismatch remain it rest idx last out :
  it.2 < 0 ->
  StdString.substr remain last (StdString.length it.1) <> it.1 ->
  matchTopic_body remain it rest idx last out = inl (Z.of_nat idx, out).
Proof.
  intros Hlit Hne. unfold matchTopic_body.
  destruct (Z.ltb_spec it.2 0) as [_|Hge]; [|lia].
  destruct (String.eqb_spec (StdString.substr remain last (StdString.length it.1)) it.1)
    as [Heq|_]; [contradiction|reflexivity].
Qed.

(** C3, as amended: when the walk of [matchTopic] comes to a literal part
    of index [idx] that the candidate does not start with at the current
    offset, [matchTopic] returns [idx] itself, which is not negative, and
    the out-parameters as they are at that point. *)
Theorem matchTopic_literal_mismatch_returns_index
    (self : MqttReplacer.t) (remain : string) (out0 : topic_fields)
    (idx : nat) (it : part) (rest : list part) (last : nat) (out : topic_fields) :
  matchTopic_at remain (m_parts self) 0 0 out0 idx = Some (it :: rest, last, out) ->
  it.2 < 0 ->
  StdString.substr remain last (StdString.length it.1) <> it.1 ->
  matchTopic self remain out0 = (Z.of_nat idx, out).
Proof.
  intros Hat Hlit Hne. unfold matchTopic.
  rewrite (matchTopic_at_loop _ _ _ _ _ _ _ _ _ Hat). simpl.
  by rewrite (matchTopic_body_literal_mismatch _ _ _ _ _ _ Hlit Hne).
Qed.

(** The template [a%%b] has the literal parts [a] and [%b]; on the
    candidate [ax] the second one, of index 1, does not match. *)
Lemma matchTopic_literal_mismatch_returns_index_witness :
  let self := {| m_parts := scan "a%%b"; m_emptyIfMissing := false |} in
  matchTopic self "ax" no_fields = (1, no_fields).
Proof.
  intros self.
  apply (matchTopic_literal_mismatch_returns_index self "ax" no_fields
           1 ("%b", -1) [] 1 no_fields).
  - reflexivity.
  - simpl. lia.
  - vm_compute. discriminate.
Defined.

(** C3, as stated, fails: the literal part of index 1 of [a%%b] does not
    match [ax] at offset 1, and [matchTopic] returns 1, not -1. *)
Lemma matchTopic_literal_mismatch_not_negative :
  ~ (forall (self : MqttReplacer.t) (remain : string) (out0 : topic_fields)
       (idx : nat) (it : part) (rest : list part) (last : nat) (out : topic_fields),
       matchTopic_at remain (m_parts self) 0 0 out0 idx = Some (it :: rest, last, out) ->
       it.2 < 0 ->
       StdString.substr remain last (StdString.length it.1) <> it.1 ->
       (matchTopic self remain out0).1 = - Z.of_nat idx).
Proof.
  intros H.
  specialize (H {| m_parts := scan "a%%b"; m_emptyIfMissing := false |}
                "ax" no_fields 1%nat ("%b", -1) [] 1%nat no_fields).
  assert (Hne : StdString.substr "ax" 1 (StdString.length "%b") <> "%b")
    by (vm_compute; discriminate).
  specialize (H eq_refl ltac:(simpl; lia) Hne).
  vm_compute in H. discriminate.
Qed.

Lemma get_loop_render values untilFirstEmpty (parts : list part) :
  Forall (supplied values) parts ->
  forall ret,
    get_loop parts values untilFirstEmpty ret = ret +:+ render values parts.
Proof.
  induction parts as [|it parts IH]; intros Hall ret; simpl.
  - by rewrite append_nil_r.
  - apply Forall_cons in Hall as [Hit Hall]. unfold partText.
    destruct (Z.ltb_spec it.2 0) as [Hlit|Hfield].
    + by rewrite IH, append_assoc.
    + destruct (Hit Hfield) as (v & -> & Hne & _). simpl.
      destruct v as [|c v]; [done|]. simpl. rewrite andb_false_r.
      by rewrite IH, append_assoc.
Qed.

Lemma matchTopic_body_literal (pre rest : string) (it : part) (parts : list part)
    (idx : nat) (out : topic_fields) :
  it.2 < 0 ->
  matchTopic_body (pre +:+ it.1 +:+ rest) it parts idx (String.length pre) out
  = inr ((String.length pre + String.length it.1)%nat, out).
Proof.
  intros Hlit. unfold matchTopic_body.
  destruct (Z.ltb_spec it.2 0) as [_|?]; [|lia].
  unfold StdString.substr, StdString.length.
  by rewrite substring_skip, substring_prefix, String.eqb_refl.
Qed.

Lemma matchTopic_body_field (pre v t rest : string) (it nx : part)
    (parts : list part) (idx : nat) (out : topic_fields) :
  0 <= it.2 ->
  noSlash v = true ->
  nx.1 = String "/" t ->
  matchTopic_body (pre +:+ v +:+ nx.1 +:+ rest) it (nx :: parts) idx
    (String.length pre) out
  = inr ((String.length pre + String.length v)%nat, store_value it.2 v out).
Proof.
  intros Hfield Hv Ht. unfold matchTopic_body.
  destruct (Z.ltb_spec it.2 0) as [?|_]; [lia|].
  unfold StdString.find. rewrite Ht, index_skip_0, index_after_noSlash by done.
  simpl. unfold StdString.substr, StdString.length.
  replace (String.length pre + String.length v - String.length pre)%nat
    with (String.length v) by lia.
  by rewrite substring_skip, substring_prefix.
Qed.

Lemma matchTopic_body_last_field_whole (pre v : string) (it : part)
    (idx : nat) (out : topic_fields) :
  0 <= it.2 ->
  noSlash v = true ->
  matchTopic_body (pre +:+ v) it [] idx (String.length pre) out
  = inr ((String.length pre + String.length (pre +:+ v))%nat,
         store_value it.2 (pre +:+ v) out).
Proof.
  intros Hfield Hv. unfold matchTopic_body.
  destruct (Z.ltb_spec it.2 0) as [?|_]; [lia|].
  unfold StdString.find_char.
  by rewrite index_skip_0, index_none_noSlash.
Qed.

Lemma partText_literal values (it : part) : it.2 < 0 -> partText values it = it.1.
Proof. intros H. unfold partText. by destruct (Z.ltb_spec it.2 0); [|lia]. Qed.

Lemma partText_field values (it : part) (v : string) :
  0 <= it.2 -> values !! it.1 = Some v -> partText values it = v.
Proof.
  intros H Hv. unfold partText. rewrite Hv. by destruct (Z.ltb_spec it.2 0); [lia|].
Qed.

Lemma matchTopic_loop_rendered values (parts : list part) :
  delimited parts ->
  Forall (supplied values) parts ->
  forall (pre : string) (idx : nat) (out : topic_fields),
    matchTopic_loop (pre +:+ render values parts) parts idx (String.length pre) out
    = (Z.of_nat (idx + List.length parts),
       matched (pre +:+ render values parts) values parts out).
Proof.
  induction parts as [|it parts IH]; intros Hdel Hall pre idx out.
  - simpl. by rewrite Nat.add_0_r.
  - destruct Hdel as [Hnext Hdel]. apply Forall_cons in Hall as [Hit Hall].
    cbn [matchTopic_loop matched render].
    destruct (Z.ltb_spec it.2 0) as [Hlit|Hfield].
    + rewrite (partText_literal values it Hlit).
      rewrite matchTopic_body_literal by done.
      rewrite <- length_append, <- append_assoc, IH by done.
      f_equal. simpl. lia.
    + destruct (Hit Hfield) as (v & Hv & Hne & Hslash).
      rewrite (partText_field values it v Hfield Hv), Hv.
      cbn [default from_option].
      destruct parts as [|nx parts].
      * cbn [render]. rewrite append_nil_r.
        rewrite matchTopic_body_last_field_whole by done.
        cbn [matchTopic_loop]. f_equal. simpl. lia.
      * destruct (Hnext Hfield) as (Hnx & t & Ht).
        specialize (IH Hdel Hall (pre +:+ v) (S idx) (store_value it.2 v out)).
        rewrite length_append, append_assoc in IH.
        cbn [render] in *. rewrite (partText_literal values nx Hnx) in *.
        rewrite (matchTopic_body_field pre v t) by done.
        rewrite IH. f_equal. simpl. lia.
Qed.

Lemma matched_ends_in_literal whole values (parts : list part) (lit : part) :
  lit.2 < 0 ->
  forall out,
    matched whole values (parts ++ [lit]) out = recovered values (parts ++ [lit]) out.
Proof.
  intros Hlit. induction parts as [|it parts IH]; intros out.
  - simpl. by destruct (Z.ltb_spec lit.2 0); [|lia].
  - cbn [app matched recovered]. destruct (it.2 <? 0); [apply IH|].
    destruct (parts ++ [lit]) eqn:Happ; [by destruct parts|]. apply IH.
Qed.

Lemma matched_ends_in_field whole values (parts : list part) (fld : part) :
  0 <= fld.2 ->
  forall out,
    matched whole values (parts ++ [fld]) out
    = store_value fld.2 whole (recovered values parts out).
Proof.
  intros Hfld. induction parts as [|it parts IH]; intros out.
  - simpl. by destruct (Z.ltb_spec fld.2 0); [lia|].
  - cbn [app matched recovered]. destruct (it.2 <? 0); [apply IH|].
    destruct (parts ++ [fld]) eqn:Happ; [by destruct parts|]. apply IH.
Qed.

(** X1: For a template whose fields the literals delimit and whose last part
    is a literal, matching the rendered string gives back the values that
    were rendered in. *)
Theorem matchTopic_rendered_ends_in_literal
    (self : MqttReplacer.t) (values : gmap string string) (untilFirstEmpty : bool)
    (front : list part) (lit : part) (out : topic_fields) :
  m_parts self = front ++ [lit] ->
  lit.2 < 0 ->
  delimited (m_parts self) ->
  Forall (supplied values) (m_parts self) ->
  matchTopic self (get self values untilFirstEmpty false) out
  = (Z.of_nat (List.length (m_parts self)), recovered values (m_parts self) out).
Proof.
  intros Hparts Hlit Hdel Hall. unfold matchTopic, get. simpl.
  rewrite get_loop_render by done.
  pose proof (matchTopic_loop_rendered values (m_parts self) Hdel Hall
                EmptyString 0 out) as H.
  simpl in H. rewrite append_nil_l in *. rewrite H. f_equal.
  rewrite Hparts. by apply matched_ends_in_literal.
Qed.

(** For a template whose last part is a field, the fields before it get
    their values back, and the last field gets the whole rendered string. *)
Theorem matchTopic_rendered_ends_in_field
    (self : MqttReplacer.t) (values : gmap string string) (untilFirstEmpty : bool)
    (front : list part) (fld : part) (out : topic_fields) :
  m_parts self = front ++ [fld] ->
  0 <= fld.2 ->
  delimited (m_parts self) ->
  Forall (supplied values) (m_parts self) ->
  matchTopic self (get self values untilFirstEmpty false) out
  = (Z.of_nat (List.length (m_parts self)),
     store_value fld.2 (get self values untilFirstEmpty false)
       (recovered values front out)).
Proof.
  intros Hparts Hfld Hdel Hall. unfold matchTopic, get. simpl.
  rewrite get_loop_render by done.
  pose proof (matchTopic_loop_rendered values (m_parts self) Hdel Hall
                EmptyString 0 out) as H.
  simpl in H. rewrite append_nil_l in *. rewrite H. f_equal.
  rewrite Hparts. by apply matched_ends_in_field.
Qed.

(** The template [ebusd/%circuit/%name/x] ends in a literal: the circuit
    and the name rendered into it are the ones matched out of it. *)
Lemma matchTopic_suffixTopic_roundtrip :
  matchTopic suffixTopic (get suffixTopic heating_temp true false) no_fields
  = (5, {| tf_circuit := "heating"; tf_name := "temp"; tf_field := "" |}).
Proof.
  assert (supplied heating_temp ("circuit", 0)) as Hcircuit.
  { intros _. exists "heating". split; [vm_compute; reflexivity|]. by split. }
  assert (supplied heating_temp ("name", 1)) as Hname.
  { intros _. exists "temp". split; [vm_compute; reflexivity|]. by split. }
  assert (forall lit : string, supplied heating_temp (lit, -1)) as Hlit.
  { intros lit H. simpl in H. lia. }
  rewrite (matchTopic_rendered_ends_in_literal suffixTopic heating_temp true
             [("ebusd/", -1); ("circuit", 0); ("/", -1); ("name", 1)] ("/x", -1)).
  - vm_compute. reflexivity.
  - reflexivity.
  - simpl. lia.
  - change (m_parts suffixTopic)
      with [("ebusd/", -1); ("circuit", 0); ("/", -1); ("name", 1); ("/x", -1)].
    simpl.
    split; [intros Hfield; lia|].
    split; [intros _; split; [lia|by eexists]|].
    split; [intros Hfield; lia|].
    split; [intros _; split; [lia|by eexists]|].
    split; [intros Hfield; lia|exact I].
  - change (m_parts suffixTopic)
      with [("ebusd/", -1); ("circuit", 0); ("/", -1); ("name", 1); ("/x", -1)].
    repeat (apply Forall_cons; split); auto.
Defined.

(** C1 at the default template: [ebusd/%circuit/%name] renders circuit
    [heating] and name [temp] as [ebusd/heating/temp], whatever
    [untilFirstEmpty], and matching that string returns 4 with the circuit
    recovered but the whole topic as the name. *)
Theorem matchTopic_default_name_is_whole_topic :
  m_parts defaultTopic = [("ebusd/", -1); ("circuit", 0); ("/", -1); ("name", 1)]
  /\ (forall untilFirstEmpty : bool,
        get defaultTopic heating_temp untilFirstEmpty false = "ebusd/heating/temp")
  /\ matchTopic defaultTopic "ebusd/heating/temp" no_fields
     = (4, {| tf_circuit := "heating";
              tf_name := "ebusd/heating/temp";
              tf_field := "" |}).
Proof.
  split; [reflexivity|]. split; [|reflexivity].
  intros []; reflexivity.
Qed.

(** ** reduce *)

Lemma reduce_loop_first_unresolved values onlyAlphanum it rest :
  0 <= it.2 ->
  forall pre ret,
    Forall (resolved values) pre ->
    (values !! it.1 = Some EmptyString ->
       reduce_loop true (pre ++ it :: rest) values onlyAlphanum ret
       = (true, EmptyString))
    /\ (values !! it.1 = None ->
          reduce_loop true (pre ++ it :: rest) values onlyAlphanum ret
          = (false, EmptyString)).
Proof.
  intros Hfield pre. induction pre as [|q pre IH]; intros ret Hpre.
  - simpl. destruct (Z.ltb_spec it.2 0) as [Hlt|_]; [lia|].
    split; intros ->; reflexivity.
  - apply Forall_cons in Hpre as [Hq Hpre]. simpl.
    destruct (Z.ltb_spec q.2 0) as [_|Hge]; [by apply IH|].
    destruct Hq as [Hlit|(v & Hv & Hne)]; [lia|].
    rewrite Hv. destruct v as [|c v]; [done|]. simpl. by apply IH.
Qed.

(** A field that is missing or has an empty value. *)
Lemma not_resolved_field values (it : part) :
  0 <= it.2 ->
  values !! it.1 = None \/ values !! it.1 = Some EmptyString ->
  ~ resolved values it.
Proof.
  intros Hfield Hv [Hlit|(v & Hsome & Hne)]; [lia|].
  destruct Hv as [Hv|Hv]; rewrite Hv in Hsome; simplify_eq.
Qed.

Lemma resolved_dec values (it : part) :
  resolved values it
  \/ (0 <= it.2 /\ (values !! it.1 = None \/ values !! it.1 = Some EmptyString)).
Proof.
  destruct (Z.ltb_spec it.2 0) as [Hlt|Hge]; [by left; left|].
  destruct (values !! it.1) as [[|c v]|] eqn:Hv.
  - right. auto.
  - left. right. exists (String c v). by rewrite Hv.
  - right. auto.
Qed.

(** Among the parts there is a first one that is missing or empty, as
    soon as there is one at all. *)
Lemma first_unresolved values (parts : list part) :
  (exists it, In it parts /\ 0 <= it.2
              /\ (values !! it.1 = None \/ values !! it.1 = Some EmptyString)) ->
  exists pre it rest,
    parts = pre ++ it :: rest /\ Forall (resolved values) pre /\ 0 <= it.2
    /\ (values !! it.1 = None \/ values !! it.1 = Some EmptyString).
Proof.
  induction parts as [|q parts IH]; intros (it & Hin & Hfield & Hv).
  - destruct Hin.
  - destruct (resolved_dec values q) as [Hq|[Hq1 Hq2]].
    + destruct Hin as [->|Hin].
      * by destruct (not_resolved_field values it Hfield Hv).
      * destruct IH as (pre & it' & rest & -> & Hpre & Hf & Hv'); [by eauto|].
        exists (q :: pre), it', rest. by repeat split; [constructor|..].
    + exists [], q, parts. by repeat split.
Qed.

(** C4, as amended: with [emptyIfMissing] set and some referenced field
    missing or empty, [reduce] leaves the empty string in [result].  It
    returns [true] when the first such field in part order is present with
    an empty value, and [false] when that field is missing. *)
Theorem reduce_emptyIfMissing_first_unresolved
    (self : MqttReplacer.t) (values : gmap string string) (onlyAlphanum : bool) :
  m_emptyIfMissing self = true ->
  (exists it, In it (m_parts self) /\ 0 <= it.2
              /\ (values !! it.1 = None \/ values !! it.1 = Some EmptyString)) ->
  exists pre it rest,
    m_parts self = pre ++ it :: rest
    /\ Forall (resolved values) pre
    /\ 0 <= it.2
    /\ ((values !! it.1 = Some EmptyString
         /\ reduce self values onlyAlphanum = (true, EmptyString))
        \/ (values !! it.1 = None
            /\ reduce self values onlyAlphanum = (false, EmptyString))).
Proof.
  intros Hflag Hex.
  destruct (first_unresolved values (m_parts self) Hex)
    as (pre & it & rest & Hparts & Hpre & Hfield & Hv).
  exists pre, it, rest. repeat split; try done.
  unfold reduce. rewrite Hflag, Hparts.
  destruct (reduce_loop_first_unresolved values onlyAlphanum it rest Hfield
              pre EmptyString Hpre) as [Hempty Hmissing].
  destruct Hv as [Hv|Hv]; [right|left]; auto.
Qed.

Lemma reduce_emptyIfMissing_first_unresolved_witness :
  exists pre it rest,
    m_parts optionalUnit = pre ++ it :: rest
    /\ Forall (resolved (∅ : gmap string string)) pre
    /\ 0 <= it.2
    /\ (((∅ : gmap string string) !! it.1 = Some EmptyString
         /\ reduce optionalUnit ∅ false = (true, EmptyString))
        \/ ((∅ : gmap string string) !! it.1 = None
            /\ reduce optionalUnit ∅ false = (false, EmptyString))).
Proof.
  apply (reduce_emptyIfMissing_first_unresolved optionalUnit ∅ false).
  - reflexivity.
  - exists ("unit", 3). split; [simpl; auto|]. split; [simpl; lia|].
    left. reflexivity.
Defined.

(** C4, as stated, fails: with [emptyIfMissing] set and the only field
    missing, [reduce] returns [false]. *)
Lemma reduce_emptyIfMissing_missing_returns_false :
  ~ (forall (self : MqttReplacer.t) (values : gmap string string) (onlyAlphanum : bool),
       m_emptyIfMissing self = true ->
       (exists it, In it (m_parts self) /\ 0 <= it.2
                   /\ (values !! it.1 = None \/ values !! it.1 = Some EmptyString)) ->
       reduce self values onlyAlphanum = (true, EmptyString)).
Proof.
  intros H. specialize (H optionalUnit ∅ false eq_refl).
  assert (reduce optionalUnit ∅ false = (false, EmptyString)) as Hred by reflexivity.
  rewrite Hred in H. discriminate H.
  exists ("unit", 3). split; [simpl; auto|]. split; [simpl; lia|]. by left.
Qed.

(** ** parse *)

Lemma land_bit (mask k : Z) :
  0 <= k ->
  (Z.land mask (Z.shiftl 1 k) =? 0) = negb (Z.testbit mask k).
Proof.
  intros Hk. rewrite Z.shiftl_1_l.
  destruct (Z.testbit mask k) eqn:Hbit; simpl.
  - apply Z.eqb_neq. intros H0.
    assert (Z.testbit (Z.land mask (2 ^ k)) k = true) as Hk'
      by (by rewrite Z.land_spec, Hbit, Z.pow2_bits_true).
    rewrite H0, Z.bits_0 in Hk'. discriminate.
  - apply Z.eqb_eq. apply Z.bits_inj'. intros n Hn.
    rewrite Z.land_spec, Z.bits_0, Z.pow2_bits_eqb by lia.
    destruct (Z.eqb_spec k n) as [->|_]; [by rewrite Hbit|by rewrite andb_false_r].
Qed.

Lemma lor_bit (mask k j : Z) :
  0 <= k ->
  Z.testbit (Z.lor mask (Z.shiftl 1 k)) j = Z.testbit mask j || (k =? j).
Proof.
  intros Hk. by rewrite Z.shiftl_1_l, Z.lor_spec, Z.pow2_bits_eqb.
Qed.

Lemma knownFieldCount_eq : knownFieldCount = 3.
Proof. reflexivity. Qed.

Lemma knownIndices_cons (it : part) (parts : list part) :
  knownIndices (it :: parts)
  = if (0 <=? it.2) && (it.2 <? knownFieldCount)
    then it.2 :: knownIndices parts else knownIndices parts.
Proof. reflexivity. Qed.

(** The validation loop returns [false] exactly when it is to reject an
    unknown field and there is one, or it is to reject duplicates and a
    known index is there twice or is already in the mask. *)
Lemma check_known_false (onlyKnown noKnownDuplicates : bool) (parts : list part) :
  forall foundMask : Z,
    check_known onlyKnown noKnownDuplicates parts foundMask = false
    <-> (onlyKnown = true /\ Exists isUnknownField parts)
        \/ (noKnownDuplicates = true
            /\ (~ NoDup (knownIndices parts)
                \/ exists k, k ∈ knownIndices parts /\ Z.testbit foundMask k = true)).
Proof.
  unfold isUnknownField. pose proof knownFieldCount_eq as Hcount.
  induction parts as [|it parts IH]; intros foundMask.
  - simpl. split; [discriminate|].
    intros [[_ H]|[_ [H|(k & H & _)]]].
    + by apply Exists_nil in H.
    + destruct H. constructor.
    + by apply elem_of_nil in H.
  - simpl check_known. rewrite knownIndices_cons, Exists_cons.
    destruct (Z.ltb_spec it.2 0) as [Hneg|Hfield].
    { rewrite IH. destruct (Z.leb_spec 0 it.2); [lia|]. simpl. intuition lia. }
    destruct (Z.leb_spec 0 it.2) as [_|?]; [|lia]. simpl.
    destruct (Z.geb_spec it.2 knownFieldCount) as [Hunknown|Hknown].
    { destruct (Z.ltb_spec it.2 knownFieldCount) as [?|_]; [lia|].
      rewrite andb_false_r.
      destruct onlyKnown; simpl; [by intuition|].
      rewrite IH. intuition discriminate. }
    rewrite andb_false_r.
    destruct (Z.ltb_spec it.2 knownFieldCount) as [_|?]; [|lia].
    destruct noKnownDuplicates; simpl.
    + rewrite land_bit by lia. rewrite negb_involutive.
      destruct (Z.testbit foundMask it.2) eqn:Hbit.
      * split; [|done]. intros _. right. split; [done|]. right.
        exists it.2. split; [left|done].
      * rewrite IH. rewrite NoDup_cons.
        split.
        -- intros [[? ?]|[_ [Hdup|(k & Hin & Hk)]]].
           ++ left. auto.
           ++ right. split; [done|]. left. tauto.
           ++ right. split; [done|]. rewrite lor_bit in Hk by lia.
              apply orb_true_iff in Hk as [Hk|Hk].
              ** right. exists k. split; [by right|done].
              ** apply Z.eqb_eq in Hk as <-. left. tauto.
        -- intros [[? [?|?]]|[_ [Hdup|(k & Hin & Hk)]]].
           ++ lia.
           ++ left. auto.
           ++ right. split; [done|].
              destruct (decide (it.2 ∈ knownIndices parts)) as [Hin|Hnin].
              ** right. exists it.2. split; [done|]. rewrite lor_bit by lia.
                 by rewrite Z.eqb_refl, orb_true_r.
              ** left. tauto.
           ++ right. split; [done|]. right.
              apply elem_of_cons in Hin as [->|Hin]; [congruence|].
              exists k. split; [done|]. rewrite lor_bit by lia. by rewrite Hk.
    + rewrite IH. intuition (try discriminate; try lia).
Qed.

(** C2, as amended: [parse] fails exactly when [onlyKnown] is set and the
    template has an unknown field, or [noKnownDuplicates] is set and a
    known field is there twice.  It then returns [false] and leaves
    [m_emptyIfMissing] as it was, while [m_parts] holds the parts of the
    template just scanned, not the parts from before the call. *)
Theorem parse_failure_keeps_flag_replaces_parts
    (self : MqttReplacer.t) (templateStr : string)
    (onlyKnown noKnownDuplicates emptyIfMissing : bool) :
  let r := parse self templateStr onlyKnown noKnownDuplicates emptyIfMissing in
  (r.1 = false
   <-> (onlyKnown = true /\ Exists isUnknownField (scan templateStr))
       \/ (noKnownDuplicates = true /\ ~ NoDup (knownIndices (scan templateStr))))
  /\ (r.1 = false ->
      m_emptyIfMissing r.2 = m_emptyIfMissing self
      /\ m_parts r.2 = scan templateStr).
Proof.
  intros r. subst r. unfold parse.
  pose proof (check_known_false onlyKnown noKnownDuplicates (scan templateStr) 0) as Hchk.
  destruct (check_known onlyKnown noKnownDuplicates (scan templateStr) 0) eqn:Hc;
    simpl.
  - rewrite andb_false_r. simpl. split; [|discriminate].
    split; [discriminate|]. intros H. exfalso.
    assert (true = false) as Habs; [|discriminate].
    apply Hchk. destruct H as [H|[Hnd Hdup]]; [by left|right]. auto.
  - rewrite andb_true_r.
    destruct (onlyKnown || noKnownDuplicates) eqn:Hflags; simpl.
    + split; [|done]. split; [|done]. intros _.
      destruct (proj1 Hchk eq_refl) as [H|[Hnd [Hdup|(k & _ & Hk)]]]; auto.
      by rewrite Z.bits_0 in Hk.
    + apply orb_false_iff in Hflags as [-> ->].
      split; [|discriminate]. split; [discriminate|].
      intros [[? _]|[? _]]; discriminate.
Qed.

Lemma parse_failure_keeps_flag_replaces_parts_witness :
  let r := parse defaultTopic "%foo" true true true in
  m_emptyIfMissing r.2 = m_emptyIfMissing defaultTopic
  /\ m_parts r.2 = scan "%foo".
Proof.
  apply (parse_failure_keeps_flag_replaces_parts defaultTopic "%foo" true true true).
  reflexivity.
Defined.

(** C2, as stated, fails: parsing [%foo] with [onlyKnown] into the default
    template returns [false] and leaves the single part [foo] where the
    four parts of [ebusd/%circuit/%name] were. *)
Lemma parse_failure_changes_parts :
  parse defaultTopic "%foo" true true true
  = (false, {| m_parts := [("foo", 3)]; m_emptyIfMissing := false |})
  /\ ~ (forall (self : MqttReplacer.t) (templateStr : string)
          (onlyKnown noKnownDuplicates emptyIfMissing : bool),
          let r := parse self templateStr onlyKnown noKnownDuplicates emptyIfMissing in
          r.1 = false -> r.2 = self).
Proof.
  split; [reflexivity|].
  intros H. specialize (H defaultTopic "%foo" true true true eq_refl).
  vm_compute in H. discriminate H.
Qed.

(** ** ensureDefault *)

Lemma has_parts_count (parts : list part) (field : string) :
  has_parts parts field = negb (Nat.eqb (count_field parts field) 0).
Proof.
  unfold count_field. induction parts as [|it parts IH]; [reflexivity|].
  simpl. fold (isFieldNamed field it).
  destruct (isFieldNamed field it); [reflexivity|exact IH].
Qed.

Lemma count_field_app (l1 l2 : list part) (field : string) :
  count_field (l1 ++ l2) field
  = (count_field l1 field + count_field l2 field)%nat.
Proof. unfold count_field. by rewrite List.filter_app, List.length_app. Qed.

(** The first step of [ensureDefault], which seeds an empty template and
    completes a lone literal with a slash, leaves the fields alone. *)
Lemma count_field_ensurePrefix (parts : list part) (field : string) :
  count_field (ensurePrefix parts) field = count_field parts field.
Proof.
  destruct parts as [|p0 [|p1 parts]]; try reflexivity. simpl.
  destruct (Z.ltb_spec p0.2 0) as [Hlt|Hge]; [|reflexivity].
  destruct (bool_decide _); [|reflexivity].
  unfold count_field, isFieldNamed. simpl.
  destruct (Z.geb_spec p0.2 0) as [Hge|_]; [lia|reflexivity].
Qed.

Lemma ensureDefault_count (self : MqttReplacer.t) :
  count_field (m_parts (ensureDefault self)) "circuit"
  = Nat.max 1 (count_field (m_parts self) "circuit")
  /\ count_field (m_parts (ensureDefault self)) "name"
     = Nat.max 1 (count_field (m_parts self) "name").
Proof.
  unfold ensureDefault. simpl.
  rewrite <- (count_field_ensurePrefix (m_parts self) "circuit").
  rewrite <- (count_field_ensurePrefix (m_parts self) "name").
  generalize (ensurePrefix (m_parts self)). intros parts1.
  set (parts2 := if negb (has_parts parts1 "circuit") then _ else parts1).
  assert (Hc : count_field parts2 "circuit" = Nat.max 1 (count_field parts1 "circuit")).
  { subst parts2. rewrite has_parts_count, negb_involutive.
    destruct (Nat.eqb_spec (count_field parts1 "circuit") 0) as [H0|Hpos].
    - rewrite count_field_app, H0. reflexivity.
    - lia. }
  assert (Hn : count_field parts2 "name" = count_field parts1 "name").
  { subst parts2. destruct (negb _); [|reflexivity].
    rewrite count_field_app. change (count_field [_; _] "name") with 0%nat. lia. }
  clearbody parts2.
  destruct (has_parts parts2 "name") eqn:Hhas; simpl;
    rewrite has_parts_count in Hhas.
  - split; [exact Hc|]. rewrite <- Hn.
    destruct (Nat.eqb_spec (count_field parts2 "name") 0); [done|lia].
  - rewrite !count_field_app.
    change (count_field [("name", 1)] "circuit") with 0%nat.
    change (count_field [("name", 1)] "name") with 1%nat.
    destruct (Nat.eqb_spec (count_field parts2 "name") 0); [|done]. lia.
Qed.

(** C5, as amended: after [ensureDefault] the part sequence contains a
    circuit field and a name field at least once each, and exactly once
    each when it contained each of them at most once before the call;
    fields that are there several times stay so. *)
Theorem ensureDefault_circuit_and_name (self : MqttReplacer.t) :
  let after := m_parts (ensureDefault self) in
  (1 <= count_field after "circuit")%nat
  /\ (1 <= count_field after "name")%nat
  /\ ((count_field (m_parts self) "circuit" <= 1)%nat ->
      count_field after "circuit" = 1%nat)
  /\ ((count_field (m_parts self) "name" <= 1)%nat ->
      count_field after "name" = 1%nat)
  /\ ((1 <= count_field (m_parts self) "circuit")%nat ->
      count_field after "circuit" = count_field (m_parts self) "circuit")
  /\ ((1 <= count_field (m_parts self) "name")%nat ->
      count_field after "name" = count_field (m_parts self) "name").
Proof.
  intros after. subst after.
  destruct (ensureDefault_count self) as [-> ->]. lia.
Qed.

Lemma ensureDefault_circuit_and_name_witness :
  count_field (m_parts (ensureDefault init)) "circuit" = 1%nat
  /\ count_field (m_parts (ensureDefault init)) "name" = 1%nat
  /\ count_field (m_parts (ensureDefault twiceCircuit)) "circuit" = 2%nat.
Proof.
  destruct (ensureDefault_circuit_and_name init) as (_ & _ & Hcircuit & Hname & _).
  destruct (ensureDefault_circuit_and_name twiceCircuit) as (_ & _ & _ & _ & Htwice & _).
  split; [apply Hcircuit; vm_compute; lia|].
  split; [apply Hname; vm_compute; lia|].
  rewrite Htwice; vm_compute; [reflexivity|lia].
Defined.

(** C5, as stated, fails: [%circuit/%circuit] has the circuit field twice
    before [ensureDefault] and twice after it. *)
Lemma ensureDefault_keeps_duplicate_circuit :
  m_parts twiceCircuit = [("circuit", 0); ("/", -1); ("circuit", 0)]
  /\ m_parts (ensureDefault twiceCircuit)
     = [("circuit", 0); ("/", -1); ("circuit", 0); ("name", 1)]
  /\ ~ (forall self : MqttReplacer.t,
          count_field (m_parts (ensureDefault self)) "circuit" = 1%nat
          /\ count_field (m_parts (ensureDefault self)) "name" = 1%nat).
Proof.
  split; [reflexivity|]. split; [reflexivity|].
  intros H. destruct (H twiceCircuit) as [Hc _].
  vm_compute in Hc. discriminate Hc.
Qed.

End MqttReplacerFacts.

(** * Properties of the variable store *)

Section MqttReplacersFacts.

Import MqttReplacers.

(** ** set *)

Lemma find_first_Some (p : ascii -> bool) (s : string) :
  forall pos : nat,
    StdString.find_first p s pos <> None
    <-> exists (i : nat) (c : ascii), String.get i s = Some c /\ p c = true.
Proof.
  induction s as [|c s IH]; intros pos; simpl.
  - split; [done|]. by intros (i & c & H & _).
  - destruct (p c) eqn:Hc.
    + split; [|done]. intros _. by exists 0%nat, c.
    + rewrite IH. split.
      * intros (i & d & Hget & Hd). by exists (S i), d.
      * intros (i & d & Hget & Hd). destruct i as [|i]; [|by exists i, d].
        simpl in Hget. simplify_eq. congruence.
Qed.

Lemma find_first_of_dash_underscore (key : string) :
  StdString.find_first_of key "-_" <> None <-> hasDashOrUnderscore key.
Proof.
  unfold StdString.find_first_of, hasDashOrUnderscore. rewrite find_first_Some.
  split; intros (i & c & Hget & Hc); exists i, c; (split; [done|]).
  - simpl in Hc. rewrite orb_false_r in Hc.
    apply orb_true_iff in Hc as [Hc|Hc]; apply Ascii.eqb_eq in Hc; auto.
  - simpl. destruct Hc as [-> | ->]; reflexivity.
Qed.

(** [normalize] keeps the letters and digits and puts [_] for every other
    character, position by position. *)
Lemma normalize_get (value : string) (i : nat) :
  String.get i (MqttReplacer.normalize value)
  = (fun c : ascii => if isalnum c then c else "_"%char) <$> String.get i value.
Proof.
  revert i. induction value as [|c value IH]; intros i; [reflexivity|].
  destruct i as [|i]; [reflexivity|]. simpl. apply IH.
Qed.

(** C7: [set(key, value)] stores [value] as the constant of [key].  Unless
    [key] has a [-] or [_] in it or is its own upper-cased form, it also
    stores the normalized [value] as the constant of the upper-cased key
    and returns [true]; otherwise it stores nothing else and returns
    [false]. *)
Theorem set_stores_constant_and_mirror
    (self : MqttReplacers.t) (key value : string) (removeReplacer : bool) :
  let r := set self key value removeReplacer in
  m_constants r.2 !! key = Some value
  /\ (~ hasDashOrUnderscore key -> upper_of key <> key ->
      r.1 = true
      /\ m_constants r.2 !! upper_of key = Some (MqttReplacer.normalize value)
      /\ m_constants r.2
         = <[upper_of key := MqttReplacer.normalize value]>
             (<[key := value]> (m_constants self)))
  /\ (hasDashOrUnderscore key \/ upper_of key = key ->
      r.1 = false
      /\ m_constants r.2 = <[key := value]> (m_constants self)).
Proof.
  intros r. subst r. unfold set.
  pose proof (find_first_of_dash_underscore key) as Hdash.
  destruct (bool_decide (StdString.find_first_of key "-_" <> None)) eqn:Hfind;
    [apply bool_decide_eq_true in Hfind|apply bool_decide_eq_false in Hfind];
    simpl.
  - apply Hdash in Hfind.
    split; [apply lookup_insert_eq|]. split; [|done].
    intros Hno. by destruct Hno.
  - destruct (String.eqb_spec (upper_of key) key) as [Heq|Hne]; simpl.
    + split; [apply lookup_insert_eq|]. split; [done|]. done.
    + split; [by rewrite lookup_insert_ne, lookup_insert_eq|].
      split; [by rewrite lookup_insert_eq|].
      intros [Hd|Heq]; [|done]. destruct Hfind. by apply Hdash.
Qed.

Lemma set_stores_constant_and_mirror_witness :
  let r := set fooBar "unit" "m3/h" true in
  m_constants r.2 !! "unit" = Some "m3/h"
  /\ m_constants r.2 !! "UNIT" = Some "m3_h"
  /\ let r' := set fooBar "field-separator" "," true in
     r'.1 = false
     /\ m_constants r'.2 = <["field-separator" := ","]> (m_constants fooBar).
Proof.
  destruct (set_stores_constant_and_mirror fooBar "unit" "m3/h" true)
    as (Hkey & Hmirror & _).
  destruct (set_stores_constant_and_mirror fooBar "field-separator" "," true)
    as (_ & _ & Hplain).
  split; [exact Hkey|]. split.
  - apply Hmirror.
    + intros Hd. apply find_first_of_dash_underscore in Hd. by apply Hd.
    + vm_compute. discriminate.
  - apply Hplain. left. exists 5%nat, "-"%char. split; [reflexivity|by left].
Defined.

(** C10: [set(key, int)] writes the decimal rendering of the value as the
    constant of [key] and nothing else: every other constant, the one of
    the upper-cased key among them, and every template stay as they
    were. *)
Theorem set_int_writes_only_key
    (self : MqttReplacers.t) (key : string) (value : Z) :
  let st := set_int self key value in
  m_constants st !! key = Some (pretty value)
  /\ (forall k : string, k <> key -> m_constants st !! k = m_constants self !! k)
  /\ (upper_of key <> key ->
      m_constants st !! upper_of key = m_constants self !! upper_of key)
  /\ m_replacers st = m_replacers self
  /\ find_replacer (m_replacers st) key = find_replacer (m_replacers self) key
  /\ find_replacer (m_replacers st) (upper_of key)
     = find_replacer (m_replacers self) (upper_of key).
Proof.
  intros st. subst st. unfold set_int. simpl.
  split; [apply lookup_insert_eq|].
  split; [by intros k Hk; apply lookup_insert_ne|].
  split; [by intros Hk; apply lookup_insert_ne|]. done.
Qed.

Lemma set_int_writes_only_key_witness :
  let st := set_int fooBarTopic "foo" (-5) in
  m_constants st !! "foo" = Some "-5"
  /\ m_constants st !! "bar" = Some "x"
  /\ m_constants st !! "FOO" = None
  /\ m_replacers st = m_replacers fooBarTopic.
Proof.
  destruct (set_int_writes_only_key fooBarTopic "foo" (-5))
    as (Hkey & Hother & Hupper & Hrepl & _).
  split; [exact Hkey|]. split; [|split; [|exact Hrepl]].
  - rewrite (Hother "bar"); [reflexivity|discriminate].
  - change "FOO" with (upper_of "foo"). rewrite Hupper; [reflexivity|discriminate].
Defined.

(** ** reduce *)

Section ReduceFacts.

Variable onlyAlphanum : bool.

Lemma erase_length (key : string) (replacers : list entry) :
  (List.length (erase key replacers) <= List.length replacers)%nat.
Proof.
  induction replacers as [|[k r] rest IH]; simpl; [lia|].
  destruct (String.eqb k key); simpl; lia.
Qed.

(** A pass that folds a template leaves fewer templates behind; one
    that folds none leaves the store and the log alone. *)
Lemma pass_progress (rest : list entry) :
  forall constants before reduced log st1 reduced1 log1,
    pass onlyAlphanum constants before rest reduced log
    = PassEnd st1 reduced1 log1 ->
    (reduced1 = true
     /\ (List.length (m_replacers st1)
         < List.length before + List.length rest)%nat)
    \/ (reduced1 = reduced /\ log1 = log
        /\ st1 = {| m_constants := constants; m_replacers := before ++ rest |}
        /\ forallb (fun it => negb (foldable onlyAlphanum constants it)) rest = true).
Proof.
  induction rest as [|[key repl] rest IH];
    intros constants before reduced log st1 reduced1 log1 H; simpl in H.
  - right. simplify_eq. by rewrite app_nil_r.
  - unfold foldable. simpl.
    destruct (MqttReplacer.reduce repl constants onlyAlphanum) as [ok str].
    destruct (MqttReplacer.isReducable repl constants) eqn:Hred; simpl in *.
    2:{ apply IH in H as [[-> Hlen]|(-> & -> & -> & Hall)].
        - left. split; [done|]. rewrite length_app in Hlen. simpl in *. lia.
        - right. by rewrite <- app_assoc. }
    destruct ok; simpl in *.
    2:{ apply IH in H as [[-> Hlen]|(-> & -> & -> & Hall)].
        - left. split; [done|]. rewrite length_app in Hlen. simpl in *. lia.
        - right. by rewrite <- app_assoc. }
    left.
    destruct (set _ key str false) as [restart st'].
    assert (forall c l, pass onlyAlphanum c before rest true l
                        = PassEnd st1 reduced1 log1 ->
            reduced1 = true
            /\ (List.length (m_replacers st1)
                < List.length before + S (List.length rest))%nat) as Hgo.
    { intros c l Hp. apply IH in Hp as [[-> Hlen]|(-> & _ & -> & _)].
      - split; [done|lia].
      - split; [done|]. simpl. rewrite length_app. lia. }
    destruct restart; [|by eapply Hgo].
    destruct rest as [|[next r] rest']; [discriminate|].
    destruct (erases _ _); [|by eapply Hgo].
    simplify_eq. split; [done|]. simpl.
    eapply Nat.le_lt_trans; [apply erase_length|].
    rewrite length_app. simpl. lia.
Qed.

(** A pass over templates none of which can be folded changes
    nothing. *)
Lemma pass_nothing_foldable (rest : list entry) :
  forall constants before reduced log,
    forallb (fun it => negb (foldable onlyAlphanum constants it)) rest = true ->
    pass onlyAlphanum constants before rest reduced log
    = PassEnd {| m_constants := constants; m_replacers := before ++ rest |}
        reduced log.
Proof.
  induction rest as [|[key repl] rest IH]; intros constants before reduced log Hall;
    simpl.
  - by rewrite app_nil_r.
  - simpl in Hall. apply andb_true_iff in Hall as [Hit Hall].
    unfold foldable in Hit. simpl in Hit.
    destruct (MqttReplacer.reduce repl constants onlyAlphanum) as [ok str].
    simpl in Hit. apply negb_true_iff in Hit.
    rewrite <- negb_andb, Hit. simpl.
    rewrite IH by done. by rewrite <- app_assoc.
Qed.

(** The passes never run out: [reduce] either returns or reads the end
    iterator. *)
Lemma reduce_passes_fuel (fuel : nat) :
  forall st log,
    (List.length (m_replacers st) < fuel)%nat ->
    (reduce_passes onlyAlphanum fuel st log).1 <> OutOfFuel.
Proof.
  induction fuel as [|fuel IH]; intros st log Hlen; [lia|]. simpl.
  destruct (pass onlyAlphanum (m_constants st) [] (m_replacers st) false log)
    as [st1 reduced1 log1|] eqn:Hpass; [|done].
  destruct reduced1; [|done].
  apply pass_progress in Hpass as [[_ Hlt]|(Habs & _)]; [|done].
  apply IH. simpl in Hlt. lia.
Qed.

Lemma reduce_not_out_of_fuel (st : MqttReplacers.t) :
  reduce onlyAlphanum st <> OutOfFuel.
Proof. apply reduce_passes_fuel. lia. Qed.

Lemma reduce_passes_returned (fuel : nat) :
  forall st log st',
    (reduce_passes onlyAlphanum fuel st log).1 = Returned st' ->
    forallb (fun it => negb (foldable onlyAlphanum (m_constants st') it))
      (m_replacers st') = true.
Proof.
  induction fuel as [|fuel IH]; intros st log st' H; [discriminate|].
  simpl in H.
  destruct (pass onlyAlphanum (m_constants st) [] (m_replacers st) false log)
    as [st1 reduced1 log1|] eqn:Hpass; [|discriminate].
  destruct reduced1; [by eapply IH|].
  simpl in H. simplify_eq.
  apply pass_progress in Hpass as [[Habs _]|(_ & _ & -> & Hall)]; done.
Qed.

(** X2: Where [reduce] returns, it returns a fixed point: a second call
    returns the same store. *)
Lemma reduce_returned_fixed_point (st st' : MqttReplacers.t) :
  reduce onlyAlphanum st = Returned st' ->
  reduce onlyAlphanum st' = Returned st'.
Proof.
  intros H. apply reduce_passes_returned in H.
  unfold reduce, reduce_log. simpl.
  rewrite pass_nothing_foldable by done. simpl. by destruct st'.
Qed.

(** Every template folded was reducible against the constants of that
    moment. *)
Lemma pass_log_reducible (rest : list entry) :
  forall constants before reduced log st1 reduced1 log1,
    pass onlyAlphanum constants before rest reduced log
    = PassEnd st1 reduced1 log1 ->
    Forall (fun f => MqttReplacer.isReducable (fold_template f) (fold_constants f)
                     = true) log ->
    Forall (fun f => MqttReplacer.isReducable (fold_template f) (fold_constants f)
                     = true) log1.
Proof.
  induction rest as [|[key repl] rest IH];
    intros constants before reduced log st1 reduced1 log1 H Hlog; simpl in H.
  - by simplify_eq.
  - destruct (MqttReplacer.reduce repl constants onlyAlphanum) as [ok str].
    destruct (MqttReplacer.isReducable repl constants) eqn:Hred; simpl in *;
      [|by eapply IH].
    destruct ok; simpl in *; [|by eapply IH].
    destruct (set _ key str false) as [restart st'].
    assert (Forall (fun f => MqttReplacer.isReducable (fold_template f)
                               (fold_constants f) = true)
              (log ++ [{| fold_key := key; fold_template := repl;
                          fold_constants := constants |}])) as Hlog'.
    { apply Forall_app. split; [done|]. by constructor. }
    destruct restart; [|by eapply IH].
    destruct rest as [|[next r] rest']; [discriminate|].
    destruct (erases _ _); [by simplify_eq|by eapply IH].
Qed.

Lemma reduce_log_reducible (st : MqttReplacers.t) :
  Forall (fun f => MqttReplacer.isReducable (fold_template f) (fold_constants f)
                   = true) (reduce_log onlyAlphanum st).2.
Proof.
  unfold reduce_log.
  assert (forall fuel st log,
            Forall (fun f => MqttReplacer.isReducable (fold_template f)
                               (fold_constants f) = true) log ->
            Forall (fun f => MqttReplacer.isReducable (fold_template f)
                               (fold_constants f) = true)
              (reduce_passes onlyAlphanum fuel st log).2) as Hgen.
  { induction fuel as [|fuel IH]; intros st0 log Hlog; [done|]. simpl.
    destruct (pass onlyAlphanum (m_constants st0) [] (m_replacers st0) false log)
      as [st1 reduced1 log1|] eqn:Hpass; [|done].
    apply pass_log_reducible in Hpass; [|done].
    destruct reduced1; [by apply IH|done]. }
  apply Hgen. constructor.
Qed.

(** C6 at the store [fooBar]: the only template, [foo], is folded and
    erased, and the iterator the next statement reads the key from is the
    end iterator.  The same happens in [messageStore], where [mqtttopic] is
    the last template and becomes reducible.  With a template after [foo]
    the call returns, with [foo] and [FOO] among the constants. *)
Theorem reduce_last_template_reads_end :
  reduce onlyAlphanum fooBar = EndDeref
  /\ reduce onlyAlphanum messageStore = EndDeref
  /\ exists st : MqttReplacers.t,
      reduce onlyAlphanum fooBarTopic = Returned st
      /\ m_constants st = <["FOO" := "x"]> (<["foo" := "x"]> {[ "bar" := "x" ]})
      /\ m_replacers st = [("mqtttopic", defaultTopic)].
Proof.
  destruct onlyAlphanum; (split; [vm_compute; reflexivity|]);
    (split; [vm_compute; reflexivity|]); eexists;
    (split; [vm_compute; reflexivity|]); split; vm_compute; reflexivity.
Qed.

End ReduceFacts.

End MqttReplacersFacts.

(** * Properties of the handler *)

Section NotifyTopicFacts.

Import MqttHandler.

Variable UI_FIELD_SEPARATOR : ascii.
Variable parseInt : string -> Z -> Z -> Z -> Z * bool.
Variable find : string -> string -> bool -> bool -> option Message.
Variable findAll : string -> string -> bool -> list Message.
Variable setPollPriority : Message -> Z -> bool.
Variable readFromBus : Message -> string -> bool.
Variable g_topicReplacer : MqttReplacer.t.
Variable m_subscribeConfigRestartTopic : string.
Variable m_subscribeConfigRestartPayload : string.

Local Abbreviation notify :=
  (notifyTopic UI_FIELD_SEPARATOR parseInt find findAll setPollPriority readFromBus
     g_topicReplacer m_subscribeConfigRestartTopic m_subscribeConfigRestartPayload).

Local Abbreviation resolves :=
  (resolvesGet find g_topicReplacer m_subscribeConfigRestartTopic).

(** A resolved [get] topic takes [notifyTopic] to the handling of the
    message found. *)
Lemma notifyTopic_resolved (topic : string) (message : Message) (data : string) :
  resolves topic message ->
  notify topic data
  = notifyMessage UI_FIELD_SEPARATOR parseInt setPollPriority readFromBus
      false message data.
Proof.
  intros (pos & Hpos & Hrestart & Hdir & Hname & Hfind).
  unfold notifyTopic. rewrite Hpos.
  apply orb_true_iff in Hrestart.
  assert (negb (StdString.empty m_subscribeConfigRestartTopic)
          && String.eqb topic m_subscribeConfigRestartTopic = false) as ->.
  { destruct Hrestart as [->|H]; [reflexivity|].
    apply negb_true_iff in H. rewrite H. apply andb_false_r. }
  rewrite Hdir. simpl.
  destruct (MqttReplacer.matchTopic _ _ _) as [code out]. simpl in *.
  rewrite Hname, Hfind. reflexivity.
Qed.

(** The suffix is honoured exactly at a last [?] that is the first
    character or follows the field separator. *)
Lemma prioritySuffix_Some (data : string) (pos : nat) :
  prioritySuffix UI_FIELD_SEPARATOR data = Some pos ->
  StdString.rfind_char data "?" = Some pos
  /\ (pos = 0%nat \/ String.get (pos - 1) data = Some UI_FIELD_SEPARATOR).
Proof.
  unfold prioritySuffix.
  destruct (StdString.rfind_char data "?") as [p|]; [|discriminate].
  destruct (Nat.ltb_spec 0 p) as [Hpos|Hzero]; simpl.
  - destruct (bool_decide (String.get (p - 1) data = Some UI_FIELD_SEPARATOR))
      eqn:Hsep; simpl; [|discriminate].
    apply bool_decide_eq_true in Hsep. intros H. simplify_eq. auto.
  - intros H. simplify_eq. split; [done|]. left. lia.
Qed.

Lemma notifyMessage_no_suffix (message : Message) (data : string) :
  isPassive message = false ->
  prioritySuffix UI_FIELD_SEPARATOR data = None ->
  notifyMessage UI_FIELD_SEPARATOR parseInt setPollPriority readFromBus
    false message data
  = plainRead readFromBus message data.
Proof.
  intros Hactive Hnone. unfold notifyMessage, plainRead.
  rewrite Hactive, Hnone. simpl. by destruct (StdString.empty data).
Qed.

(** C8: for a [get] topic resolved to a message that is not passive, the
    payload [?5] has the handler set the poll priority of the message to
    5 (and queue it for polling when the priority changed) and then read
    from the bus with the empty payload.  For any payload, the handler
    departs from the plain read of the payload as it is only when the
    last [?] of the payload is its first character or follows the field
    separator. *)
Theorem notifyTopic_get_priority_suffix (topic : string) (message : Message) :
  resolves topic message ->
  isPassive message = false ->
  (parseInt "5" 10 1 9 = (5, true) ->
     notify topic "?5"
     = SetPollPriority message 5 ::
         (if setPollPriority message 5 then [AddPollMessage message] else [])
         ++ plainRead readFromBus message "")
  /\ (forall data : string,
        notify topic data <> plainRead readFromBus message data ->
        exists pos : nat,
          StdString.rfind_char data "?" = Some pos
          /\ (pos = 0%nat
              \/ String.get (pos - 1) data = Some UI_FIELD_SEPARATOR)).
Proof.
  intros Hres Hactive. split.
  - intros Hparse. rewrite (notifyTopic_resolved _ _ _ Hres).
    unfold notifyMessage, plainRead. rewrite Hactive. simpl.
    change (StdString.substr_from "?5" 1) with "5". rewrite Hparse. simpl.
    reflexivity.
  - intros data Hne. rewrite (notifyTopic_resolved _ _ _ Hres) in Hne.
    destruct (prioritySuffix UI_FIELD_SEPARATOR data) as [pos|] eqn:Hsuffix.
    + exists pos. by apply prioritySuffix_Some.
    + by destruct Hne; apply notifyMessage_no_suffix.
Qed.

End NotifyTopicFacts.

Lemma notifyTopic_get_priority_suffix_witness :
  notifyHeating "ebusd/heating/temp/x/get" "?5"
  = [SetPollPriority heatingTemp 5; AddPollMessage heatingTemp;
     ReadFromBus heatingTemp ""; PublishMessage heatingTemp false]
  /\ exists pos : nat,
      StdString.rfind_char "21;?x" "?" = Some pos
      /\ (pos = 0%nat \/ String.get (pos - 1) "21;?x" = Some ";"%char).
Proof.
  assert (MqttHandler.resolvesGet findHeatingTemp suffixTopic ""
            "ebusd/heating/temp/x/get" heatingTemp) as Hres.
  { exists 20%nat. repeat split; reflexivity. }
  destruct (notifyTopic_get_priority_suffix ";" parseDecimal findHeatingTemp
              (fun _ _ _ => []) (fun _ _ => true) (fun _ _ => true) suffixTopic "" ""
              "ebusd/heating/temp/x/get" heatingTemp Hres eq_refl) as [Hfive Honly].
  split.
  - apply Hfive. reflexivity.
  - apply Honly. vm_compute. discriminate.
Defined.

Section RunFacts.

Import MqttHandler.







(** Every step of the trace starts in the state the step before it
    left. *)
Lemma run_loop_succ (ticks : list tick) :
  forall (st : loop_state) (k : nat) (s s' : step),
    run_loop st ticks !! k = Some s' ->
    run_loop st ticks !! S k = Some s ->
    before s = next (iteration (before s') (input s')).
Proof.
  induction ticks as [|i ticks IH]; intros st k s s' Hk' Hk; [done|].
  simpl in Hk, Hk'.
  destruct (continues (iteration st i)) eqn:Hcont; [|done].
  destruct k as [|k]; simpl in Hk, Hk'.
  - simplify_eq. simpl. destruct ticks as [|i' ticks]; [done|].
    simpl in Hk. by simplify_eq.
  - by eapply IH.
Qed.





(** Nor is a call never made in every iteration: when the iterations are 16
    seconds apart and the reconnect fails, every iteration but the first
    makes one. *)
Lemma reconnect_attempt_every_iteration :
  map (fun s : step => existsb isAttempt (calls s))
    (run disconnected 100 slowTicks)
  = [false; true; true; true].
Proof. reflexivity. Qed.

End RunFacts.

(** * Further properties of the topic template *)

Section MqttReplacerInvariants.
Import MqttReplacer.

Lemma allChars_push (p : ascii -> bool) (s : string) (ch : ascii) :
  allChars p (push_char s ch) = allChars p s && p ch.
Proof.
  unfold push_char. induction s as [|c s IH].
  - rewrite append_nil_l. simpl. by rewrite andb_true_r.
  - rewrite append_cons. simpl. by rewrite IH, andb_assoc.
Qed.

Lemma push_char_nonempty (s : string) (ch : ascii) : push_char s ch <> EmptyString.
Proof. unfold push_char. by destruct s. Qed.

Lemma length_leb_0 (s : string) :
  Nat.leb (StdString.length s) 0 = StdString.empty s.
Proof. by destruct s. Qed.

Lemma length_ltb_0 (s : string) :
  Nat.ltb 0 (StdString.length s) = negb (StdString.empty s).
Proof. by destruct s. Qed.

Lemma makeField_wellFormed (name : string) (isField : bool) :
  name <> EmptyString ->
  (isField = true -> allChars isFieldChar name = true) ->
  wellFormedPart (makeField name isField).
Proof.
  intros Hne Hchars. unfold makeField. destruct isField; simpl.
  - split; [done|]. right. split; [by apply Hchars|reflexivity].
  - split; [done|]. by left.
Qed.

Lemma scan_step_inv (st : scan_state) (ch : ascii) :
  scan_inv st -> scan_inv (scan_step st ch).
Proof.
  intros [Hparts Hstack]. unfold scan_step.
  rewrite length_leb_0, length_ltb_0.
  destruct (Ascii.eqb ch "%" || Ascii.eqb ch NUL).
  - destruct (sc_inField st) eqn:Hin; simpl.
    + destruct (sc_stack st) as [|c s] eqn:Hs; simpl.
      * split; [done|discriminate].
      * split; [|done]. simpl. apply Forall_app. split; [done|].
        constructor; [|constructor].
        apply makeField_wellFormed; [done|]. intros _. by apply Hstack.
    + destruct (sc_stack st) as [|c s] eqn:Hs; simpl.
      * by split.
      * split; [|done]. simpl. apply Forall_app. split; [done|].
        constructor; [|constructor]. by apply makeField_wellFormed.
  - destruct (sc_inField st) eqn:Hin; simpl.
    + destruct (isFieldChar ch) eqn:Hch; simpl.
      * split; [done|]. simpl. intros _. by rewrite allChars_push, Hstack, Hch.
      * destruct (sc_stack st) as [|c s] eqn:Hs; simpl.
        -- split; [done|discriminate].
        -- split; [|discriminate]. simpl. apply Forall_app. split; [done|].
           constructor; [|constructor].
           apply makeField_wellFormed; [done|]. intros _. by apply Hstack.
    + by split.
Qed.

Lemma scan_chars_inv (s : string) :
  forall st, scan_inv st -> scan_inv (scan_chars st s).
Proof.
  induction s as [|ch s IH]; intros st Hst; [done|].
  simpl. by apply IH, scan_step_inv.
Qed.

(** X3: The parts [parse] leaves are well formed, whatever the template. *)
Theorem scan_wellFormed (templateStr : string) :
  Forall wellFormedPart (scan templateStr).
Proof.
  unfold scan. apply scan_step_inv, scan_chars_inv. by split.
Qed.

(** Plain characters outside a field go to the stack as they are. *)
Lemma scan_chars_plain (s : string) :
  forall (parts : list part) (stack : string),
    allChars isPlainChar s = true ->
    scan_chars {| sc_parts := parts; sc_inField := false; sc_stack := stack |} s
    = {| sc_parts := parts; sc_inField := false; sc_stack := stack +:+ s |}.
Proof.
  induction s as [|ch s IH]; intros parts stack Hs.
  - by rewrite append_nil_r.
  - simpl in Hs. apply andb_true_iff in Hs as [Hch Hs].
    simpl. unfold scan_step at 1. simpl.
    unfold isPlainChar in Hch. apply andb_true_iff in Hch as [H1 H2].
    apply negb_true_iff in H1, H2. rewrite H1, H2. simpl.
    rewrite IH by done. unfold push_char. by rewrite append_assoc.
Qed.

Lemma scan_chars_app (a b : string) :
  forall st, scan_chars st (a +:+ b) = scan_chars (scan_chars st a) b.
Proof.
  induction a as [|c a IH]; intros st; [done|].
  rewrite append_cons. simpl. apply IH.
Qed.

(** A [%] or the final NUL outside a field closes the literal on the
    stack. *)
Lemma scan_step_close (parts : list part) (stack : string) (ch : ascii) :
  Ascii.eqb ch "%" || Ascii.eqb ch NUL = true ->
  scan_step {| sc_parts := parts; sc_inField := false; sc_stack := stack |} ch
  = {| sc_parts := parts ++ (if StdString.empty stack then [] else [(stack, -1)]);
       sc_inField := true;
       sc_stack := EmptyString |}.
Proof.
  intros Hch. unfold scan_step. rewrite Hch, length_leb_0. simpl.
  destruct stack; simpl; [by rewrite app_nil_r|done].
Qed.

(** A [%] right after a [%] is a plain [%]. *)
Lemma scan_step_escape (parts : list part) :
  scan_step {| sc_parts := parts; sc_inField := true; sc_stack := EmptyString |} "%"
  = {| sc_parts := parts; sc_inField := false; sc_stack := "%" |}.
Proof. reflexivity. Qed.

Lemma scan_plain (s : string) :
  allChars isPlainChar s = true ->
  scan s = if StdString.empty s then [] else [(s, -1)].
Proof.
  intros Hs. unfold scan. rewrite scan_chars_plain by done.
  rewrite append_nil_l. by rewrite scan_step_close.
Qed.

Lemma scan_escaped_percent (s1 s2 : string) :
  allChars isPlainChar s1 = true ->
  allChars isPlainChar s2 = true ->
  scan (s1 +:+ "%%" +:+ s2)
  = (if StdString.empty s1 then [] else [(s1, -1)]) ++ [("%" +:+ s2, -1)].
Proof.
  intros H1 H2. unfold scan.
  rewrite scan_chars_app, scan_chars_plain, append_nil_l by done.
  change ("%%" +:+ s2) with (String "%" (String "%" s2)).
  cbn [scan_chars]. rewrite scan_step_close by done.
  rewrite scan_step_escape, scan_chars_plain by done.
  by rewrite scan_step_close.
Qed.

Lemma get_loop_literal (text : string) values untilFirstEmpty (ret : string) :
  get_loop [(text, -1)] values untilFirstEmpty ret = ret +:+ text.
Proof. reflexivity. Qed.

(** X4: A template without [%] is rendered as it is written. *)
Theorem parse_get_plain
    (self : MqttReplacer.t) (templateStr : string)
    (onlyKnown noKnownDuplicates emptyIfMissing : bool)
    (values : gmap string string) (untilFirstEmpty : bool) :
  allChars isPlainChar templateStr = true ->
  let r := parse self templateStr onlyKnown noKnownDuplicates emptyIfMissing in
  r.1 = true
  /\ get r.2 values untilFirstEmpty false = templateStr.
Proof.
  intros Hs r. subst r. unfold parse. rewrite (scan_plain _ Hs).
  destruct templateStr as [|c s]; simpl.
  - rewrite andb_false_r. by split.
  - rewrite andb_false_r. by split.
Qed.

(** The template [global/running] has no [%]. *)
Lemma parse_get_plain_witness :
  let r := parse init "global/running" true true false in
  r.1 = true /\ get r.2 heating_temp false false = "global/running".
Proof.
  apply (parse_get_plain init "global/running" true true false heating_temp false).
  reflexivity.
Defined.

(** X5: [%%] in a template is rendered as a single [%]. *)
Theorem parse_get_escaped_percent
    (self : MqttReplacer.t) (s1 s2 : string)
    (onlyKnown noKnownDuplicates emptyIfMissing : bool)
    (values : gmap string string) (untilFirstEmpty : bool) :
  allChars isPlainChar s1 = true ->
  allChars isPlainChar s2 = true ->
  let r := parse self (s1 +:+ "%%" +:+ s2) onlyKnown noKnownDuplicates emptyIfMissing in
  r.1 = true
  /\ get r.2 values untilFirstEmpty false = s1 +:+ "%" +:+ s2.
Proof.
  intros H1 H2 r. subst r. unfold parse. rewrite (scan_escaped_percent _ _ H1 H2).
  destruct s1 as [|c s1]; simpl; rewrite andb_false_r; by split.
Qed.

(** The template [load 50%% max] is rendered as [load 50% max]. *)
Lemma parse_get_escaped_percent_witness :
  let r := parse init "load 50%% max" true true false in
  r.1 = true /\ get r.2 heating_temp false false = "load 50% max".
Proof.
  apply (parse_get_escaped_percent init "load 50" " max" true true false
           heating_temp false); reflexivity.
Defined.

(** ** Known fields after [parse] and [ensureDefault] *)

Lemma makeField_search_index (name : string) :
  makeField_search name knownFieldNames 0
  = if String.eqb name "circuit" then 0
    else if String.eqb name "name" then 1
    else if String.eqb name "field" then 2 else 3.
Proof.
  unfold knownFieldNames. simpl.
  by destruct (String.eqb name "circuit"), (String.eqb name "name"),
       (String.eqb name "field").
Qed.

(** In a well-formed part sequence a field named [circuit] is a part of
    index 0, and one named [name] a part of index 1. *)
Lemma isFieldNamed_index (it : part) (field : string) (idx : Z) :
  wellFormedPart it ->
  (makeField field true).2 = idx ->
  0 <= idx < knownFieldCount ->
  isFieldNamed field it = (it.2 =? idx).
Proof.
  intros [Hne [Hlit|[_ Hmk]]] Hidx Hrange.
  - unfold isFieldNamed. rewrite Hlit. change (-1 >=? 0) with false.
    cbn [andb]. symmetry. apply Z.eqb_neq. lia.
  - destruct it as [name idx0]. unfold isFieldNamed, makeField in *.
    cbn [negb fst snd] in *. change knownFieldCount with 3 in Hrange.
    assert (idx0 = makeField_search name knownFieldNames 0) as Hidx0 by congruence.
    clear Hmk. rewrite makeField_search_index in Hidx, Hidx0.
    destruct (String.eqb_spec name field) as [->|Hneq].
    + assert (idx0 = idx) as -> by congruence. rewrite Z.eqb_refl.
      destruct (Z.geb_spec idx 0); [done|lia].
    + rewrite andb_false_r. symmetry. apply Z.eqb_neq. intros Heq.
      apply Hneq. clear Hneq.
      destruct (String.eqb name "circuit") eqn:N0;
        destruct (String.eqb field "circuit") eqn:F0;
        destruct (String.eqb name "name") eqn:N1;
        destruct (String.eqb field "name") eqn:F1;
        destruct (String.eqb name "field") eqn:N2;
        destruct (String.eqb field "field") eqn:F2;
        try lia;
        repeat match goal with
               | H : String.eqb _ _ = true |- _ => apply String.eqb_eq in H
               end; congruence.
Qed.

Lemma count_field_knownIndices (parts : list part) (field : string) (idx : Z) :
  Forall wellFormedPart parts ->
  (makeField field true).2 = idx ->
  0 <= idx < knownFieldCount ->
  count_field parts field
  = List.length (List.filter (Z.eqb idx) (knownIndices parts)).
Proof.
  intros Hwf Hidx Hrange. unfold count_field.
  induction Hwf as [|it parts Hit Hwf IH]; [reflexivity|].
  rewrite knownIndices_cons. simpl.
  rewrite (isFieldNamed_index it field idx Hit Hidx Hrange).
  destruct (Z.eqb_spec it.2 idx) as [Heq|Hneq].
  - rewrite Heq. destruct (Z.leb_spec 0 idx); [|lia].
    destruct (Z.ltb_spec idx knownFieldCount); [|lia]. simpl.
    rewrite Z.eqb_refl. simpl. by rewrite IH.
  - destruct ((0 <=? it.2) && (it.2 <? knownFieldCount)); [|exact IH].
    simpl. destruct (Z.eqb_spec idx it.2); [congruence|exact IH].
Qed.

Lemma NoDup_filter_eqb_le (l : list Z) (x : Z) :
  NoDup l -> (List.length (List.filter (Z.eqb x) l) <= 1)%nat.
Proof.
  induction 1 as [|y l Hnin Hnd IH]; simpl; [lia|].
  destruct (Z.eqb_spec x y) as [->|Hne]; [|exact IH]. simpl.
  assert (List.filter (Z.eqb y) l = []) as ->; [|simpl; lia].
  clear IH Hnd. induction l as [|z l IH]; [done|]. simpl.
  destruct (Z.eqb_spec y z) as [->|Hne].
  - destruct Hnin. by left.
  - apply IH. intros Hin. apply Hnin. by right.
Qed.

(** X6: A template parsed with [noKnownDuplicates] and completed by
    [ensureDefault] has the circuit field and the name field exactly
    once. *)
Theorem parse_ensureDefault_once
    (self : MqttReplacer.t) (templateStr : string)
    (onlyKnown emptyIfMissing : bool) :
  let r := parse self templateStr onlyKnown true emptyIfMissing in
  r.1 = true ->
  count_field (m_parts (ensureDefault r.2)) "circuit" = 1%nat
  /\ count_field (m_parts (ensureDefault r.2)) "name" = 1%nat.
Proof.
  intros r Hok. subst r.
  assert (NoDup (knownIndices (scan templateStr))) as Hnd.
  { unfold parse in Hok. rewrite orb_true_r in Hok. simpl in Hok.
    destruct (check_known onlyKnown true (scan templateStr) 0) eqn:Hchk;
      [|discriminate].
    destruct (decide (NoDup (knownIndices (scan templateStr)))) as [?|Hdup]; [done|].
    assert (check_known onlyKnown true (scan templateStr) 0 = false) as Habs.
    { apply check_known_false. right. split; [done|]. by left. }
    congruence. }
  assert (m_parts (parse self templateStr onlyKnown true emptyIfMissing).2
          = scan templateStr) as Hparts.
  { unfold parse. by destruct (_ && _). }
  destruct (ensureDefault_count (parse self templateStr onlyKnown true emptyIfMissing).2)
    as [Hc Hn].
  rewrite Hc, Hn, Hparts.
  pose proof (scan_wellFormed templateStr) as Hwf.
  rewrite (count_field_knownIndices _ "circuit" 0 Hwf) by (done || (change knownFieldCount with 3; lia)).
  rewrite (count_field_knownIndices _ "name" 1 Hwf) by (done || (change knownFieldCount with 3; lia)).
  pose proof (NoDup_filter_eqb_le _ 0 Hnd). pose proof (NoDup_filter_eqb_le _ 1 Hnd).
  lia.
Qed.

(** The template [ebusd/%circuit] gets the name field appended. *)
Lemma parse_ensureDefault_once_witness :
  let r := parse init "ebusd/%circuit" true true false in
  r.1 = true
  /\ count_field (m_parts (ensureDefault r.2)) "circuit" = 1%nat
  /\ count_field (m_parts (ensureDefault r.2)) "name" = 1%nat.
Proof.
  split; [reflexivity|].
  apply (parse_ensureDefault_once init "ebusd/%circuit" true false).
  reflexivity.
Defined.

Lemma has_parts_ensureDefault (self : MqttReplacer.t) :
  has_parts (m_parts (ensureDefault self)) "circuit" = true
  /\ has_parts (m_parts (ensureDefault self)) "name" = true.
Proof.
  rewrite !has_parts_count. destruct (ensureDefault_count self) as [-> ->].
  split; apply negb_true_iff, Nat.eqb_neq; lia.
Qed.

(** X7: [ensureDefault] changes nothing when it is called again. *)
Theorem ensureDefault_idempotent (self : MqttReplacer.t) :
  ensureDefault (ensureDefault self) = ensureDefault self.
Proof.
  destruct (has_parts_ensureDefault self) as [Hc Hn].
  set (r := ensureDefault self) in *.
  unfold ensureDefault at 1.
  assert (ensurePrefix (m_parts r) = m_parts r) as ->.
  { destruct (m_parts r) as [|p0 [|p1 parts]]; [done| |done].
    simpl in Hc, Hn.
    destruct ((p0.2 >=? 0) && String.eqb p0.1 "circuit") eqn:H1; [|done].
    destruct ((p0.2 >=? 0) && String.eqb p0.1 "name") eqn:H2; [|done].
    apply andb_true_iff in H1 as [_ H1]. apply andb_true_iff in H2 as [_ H2].
    apply String.eqb_eq in H1, H2. congruence. }
  cbv zeta. rewrite Hc. cbn [negb]. rewrite Hn. cbn [negb]. by destruct r.
Qed.

(** ** normalize *)

Lemma isalnum_underscore : isalnum "_" = false.
Proof. reflexivity. Qed.

(** X8: [normalize] keeps the length, leaves only letters, digits and [_], and
    changes nothing when it is applied again. *)
Theorem normalize_spec (str : string) :
  String.length (normalize str) = String.length str
  /\ allChars (fun c => isalnum c || Ascii.eqb c "_") (normalize str) = true
  /\ normalize (normalize str) = normalize str.
Proof.
  unfold normalize. induction str as [|c str (IHlen & IHchars & IHidem)];
    [done|].
  cbn [StdString.transform String.length allChars].
  rewrite IHlen, IHidem, IHchars. split; [done|].
  destruct (isalnum c) eqn:Hc.
  - by rewrite Hc.
  - by rewrite isalnum_underscore.
Qed.

(** ** reduce, get and isReducable *)

Lemma reduce_loop_reducible (emptyIfMissing : bool) values (onlyAlphanum : bool)
    (parts : list part) :
  forall ret,
    isReducable_parts parts values = true ->
    (reduce_loop emptyIfMissing parts values onlyAlphanum ret).1 = true.
Proof.
  induction parts as [|it parts IH]; intros ret Hred; [done|].
  simpl in *. destruct (it.2 <? 0); [by apply IH|].
  destruct (values !! it.1) as [v|]; [|done].
  destruct (emptyIfMissing && StdString.empty v); [done|by apply IH].
Qed.

Lemma reduce_loop_flag values (onlyAlphanum : bool) (parts : list part) :
  forall ret,
    (reduce_loop false parts values onlyAlphanum ret).1
    = isReducable_parts parts values.
Proof.
  induction parts as [|it parts IH]; intros ret; [done|].
  simpl. destruct (it.2 <? 0); [by apply IH|].
  destruct (values !! it.1) as [v|]; [by apply IH|done].
Qed.

Lemma reduce_loop_get values (onlyAlphanum : bool) (parts : list part) :
  forall ret,
    isReducable_parts parts values = true ->
    (reduce_loop false parts values onlyAlphanum ret).2
    = let s := get_loop parts values false ret in
      if onlyAlphanum then normalize s else s.
Proof.
  induction parts as [|it parts IH]; intros ret Hred; [done|].
  simpl in *. destruct (it.2 <? 0); [by apply IH|].
  destruct (values !! it.1) as [v|]; [by apply IH|done].
Qed.

(** X9: A template all of whose fields are among the values is reported as
    resolved by [reduce]; for a template that is not optional the two say
    the same, and the string [reduce] leaves is the one [get] renders. *)
Theorem reduce_agrees_with_isReducable_and_get
    (self : MqttReplacer.t) (values : gmap string string) (onlyAlphanum : bool) :
  (isReducable self values = true -> (reduce self values onlyAlphanum).1 = true)
  /\ (m_emptyIfMissing self = false ->
      (reduce self values onlyAlphanum).1 = isReducable self values
      /\ (isReducable self values = true ->
          (reduce self values onlyAlphanum).2 = get self values false onlyAlphanum)).
Proof.
  unfold reduce, isReducable, get. split.
  - apply reduce_loop_reducible.
  - intros ->. split; [apply reduce_loop_flag|].
    intros Hred. rewrite reduce_loop_get by done. simpl.
    by destruct onlyAlphanum.
Qed.

(** The template [ebusd/%circuit/%name/x] with a circuit and a name. *)
Lemma reduce_agrees_with_isReducable_and_get_witness :
  isReducable suffixTopic heating_temp = true
  /\ (reduce suffixTopic heating_temp false).1 = true
  /\ (reduce suffixTopic heating_temp false).2
     = get suffixTopic heating_temp false false.
Proof.
  destruct (reduce_agrees_with_isReducable_and_get suffixTopic heating_temp false)
    as [Hok Hsame].
  split; [reflexivity|]. split.
  - apply Hok. reflexivity.
  - apply Hsame; reflexivity.
Defined.

(** X10: More values keep a template reducible. *)
Theorem isReducable_mono
    (self : MqttReplacer.t) (values values' : gmap string string) :
  values ⊆ values' ->
  isReducable self values = true ->
  isReducable self values' = true.
Proof.
  intros Hsub. unfold isReducable.
  induction (m_parts self) as [|it parts IH]; [done|].
  simpl. destruct (it.2 <? 0); [done|].
  destruct (values !! it.1) as [v|] eqn:Hv; [|done].
  by rewrite (lookup_weaken _ _ _ _ Hv Hsub).
Qed.

(** A value for [field] besides the circuit and the name. *)
Lemma isReducable_mono_witness :
  isReducable suffixTopic heating_temp = true
  /\ isReducable suffixTopic (<["field" := "flow"]> heating_temp) = true.
Proof.
  split; [reflexivity|].
  apply (isReducable_mono suffixTopic heating_temp).
  - apply insert_subseteq. reflexivity.
  - reflexivity.
Defined.

(** ** What matchTopic returns *)

Lemma matchTopic_body_inl remain (it : part) rest idx last out r out' :
  matchTopic_body remain it rest idx last out = inl (r, out') ->
  out' = out
  /\ ((r = Z.of_nat idx /\ it.2 < 0) \/ (r = - Z.of_nat idx - 1 /\ 0 <= it.2)).
Proof.
  unfold matchTopic_body. destruct (Z.ltb_spec it.2 0) as [Hlit|Hfield].
  - destruct (negb _); [|discriminate]. intros H. simplify_eq. auto.
  - destruct (match rest with [] => _ | _ => _ end); [discriminate|].
    intros H. simplify_eq. auto.
Qed.

Lemma matchTopic_loop_result remain (parts : list part) :
  forall idx last out,
    let r := (matchTopic_loop remain parts idx last out).1 in
    r = Z.of_nat (idx + List.length parts)
    \/ exists (j : nat) (it : part),
         parts !! j = Some it
         /\ ((r = Z.of_nat (idx + j) /\ it.2 < 0)
             \/ (r = - Z.of_nat (idx + j) - 1 /\ 0 <= it.2)).
Proof.
  induction parts as [|it parts IH]; intros idx last out; simpl.
  - left. f_equal. lia.
  - destruct (matchTopic_body remain it parts idx last out) as [[r out']|[last' out']]
      eqn:Hbody.
    + right. exists 0%nat, it. split; [done|]. rewrite Nat.add_0_r. simpl.
      by apply matchTopic_body_inl in Hbody as [_ ?].
    + destruct (IH (S idx) last' out') as [Hall|(j & it' & Hj & Hr)].
      * left. rewrite Hall. f_equal. lia.
      * right. exists (S j), it'. split; [done|].
        replace (idx + S j)%nat with (S idx + j)%nat by lia. exact Hr.
Qed.

(** X11: [matchTopic] returns the number of parts when it has walked them all,
    the index of a literal part when that is the first part not to match,
    and minus the index minus one of a field part when that is. *)
Theorem matchTopic_result
    (self : MqttReplacer.t) (remain : string) (out : topic_fields) :
  let r := (matchTopic self remain out).1 in
  - Z.of_nat (List.length (m_parts self)) <= r <= Z.of_nat (List.length (m_parts self))
  /\ (r = Z.of_nat (List.length (m_parts self))
      \/ exists (j : nat) (it : part),
           m_parts self !! j = Some it
           /\ ((r = Z.of_nat j /\ it.2 < 0) \/ (r = - Z.of_nat j - 1 /\ 0 <= it.2))).
Proof.
  unfold matchTopic.
  pose proof (matchTopic_loop_result remain (m_parts self) 0 0 out) as H.
  simpl in *. destruct H as [H|(j & it & Hj & H)].
  - split; [lia|by left].
  - pose proof (lookup_lt_Some _ _ _ Hj) as Hlt.
    split; [lia|]. right. by exists j, it.
Qed.

Lemma store_value_other (idx : Z) (value : string) (out : topic_fields) :
  (idx <> 0 -> tf_circuit (store_value idx value out) = tf_circuit out)
  /\ (idx <> 1 -> tf_name (store_value idx value out) = tf_name out)
  /\ (idx <> 2 -> tf_field (store_value idx value out) = tf_field out).
Proof.
  unfold store_value.
  destruct (Z.eqb_spec idx 0); [by repeat split|].
  destruct (Z.eqb_spec idx 1); [by repeat split|].
  destruct (Z.eqb_spec idx 2); by repeat split.
Qed.

Lemma matchTopic_body_out remain (it : part) rest idx last out :
  let out' := match matchTopic_body remain it rest idx last out with
              | inl r => r.2 | inr r => r.2 end in
  out' = out \/ exists value, out' = store_value it.2 value out.
Proof.
  unfold matchTopic_body. destruct (it.2 <? 0).
  - destruct (negb _); by left.
  - destruct (match rest with [] => _ | _ => _ end); [right|left]; eauto.
Qed.

Lemma matchTopic_loop_frame remain (parts : list part) :
  forall idx last out,
    let out' := (matchTopic_loop remain parts idx last out).2 in
    (Forall (fun it : part => it.2 <> 0) parts -> tf_circuit out' = tf_circuit out)
    /\ (Forall (fun it : part => it.2 <> 1) parts -> tf_name out' = tf_name out)
    /\ (Forall (fun it : part => it.2 <> 2) parts -> tf_field out' = tf_field out).
Proof.
  induction parts as [|it parts IH]; intros idx last out; [done|]. simpl.
  pose proof (matchTopic_body_out remain it parts idx last out) as Hbody.
  destruct (matchTopic_body remain it parts idx last out) as [[r o]|[last' o]];
    simpl in *.
  - destruct Hbody as [->|[value ->]]; [done|].
    destruct (store_value_other it.2 value out) as (H0 & H1 & H2).
    repeat split; intros Hall; apply Forall_cons in Hall as [Hit _]; auto.
  - destruct (IH (S idx) last' o) as (I0 & I1 & I2).
    destruct Hbody as [->|[value ->]].
    + repeat split; intros Hall; apply Forall_cons in Hall as [_ Hall]; auto.
    + destruct (store_value_other it.2 value out) as (H0 & H1 & H2).
      repeat split; intros Hall; apply Forall_cons in Hall as [Hit Hall].
      * rewrite I0 by done. auto.
      * rewrite I1 by done. auto.
      * rewrite I2 by done. auto.
Qed.

(** X12: [matchTopic] leaves alone the out-parameter of a known field the
    template has no part for. *)
Theorem matchTopic_frame
    (self : MqttReplacer.t) (remain : string) (out : topic_fields) :
  let out' := (matchTopic self remain out).2 in
  (Forall (fun it : part => it.2 <> 0) (m_parts self) ->
   tf_circuit out' = tf_circuit out)
  /\ (Forall (fun it : part => it.2 <> 1) (m_parts self) ->
      tf_name out' = tf_name out)
  /\ (Forall (fun it : part => it.2 <> 2) (m_parts self) ->
      tf_field out' = tf_field out).
Proof. apply matchTopic_loop_frame. Qed.

(** The template [ebusd/%circuit/%name/x] has no part for the field. *)
Lemma matchTopic_frame_witness :
  let out := {| tf_circuit := ""; tf_name := ""; tf_field := "flow" |} in
  tf_field (matchTopic suffixTopic "ebusd/heating/temp/x" out).2 = "flow".
Proof.
  intros out.
  destruct (matchTopic_frame suffixTopic "ebusd/heating/temp/x" out)
    as (_ & _ & Hfield).
  apply Hfield.
  change (m_parts suffixTopic)
    with [("ebusd/", -1); ("circuit", 0); ("/", -1); ("name", 1); ("/x", -1)].
  repeat constructor; simpl; lia.
Defined.

(** ** The offset of matchTopic stays within the candidate *)

Lemma length_substring (s : string) :
  forall n m : nat,
    String.length (String.substring n m s) = Nat.min m (String.length s - n).
Proof.
  induction s as [|c s IH]; intros n m.
  - destruct n, m; reflexivity.
  - destruct n as [|n]; simpl.
    + destruct m as [|m]; [reflexivity|]. simpl. rewrite IH. lia.
    + apply IH.
Qed.

Lemma index_bounds (needle : string) (s : string) :
  forall n m : nat,
    String.index n needle s = Some m -> (n <= m <= String.length s)%nat.
Proof.
  induction s as [|c s IH]; intros n m H.
  - destruct n; simpl in H; [|discriminate].
    destruct needle; [|discriminate]. simplify_eq. simpl. lia.
  - destruct n as [|n].
    + rewrite index_cons_0 in H.
      destruct (String.prefix needle (String c s)).
      * simplify_eq. simpl. lia.
      * destruct (String.index 0 needle s) as [p|] eqn:Hp; [|discriminate].
        simpl in H. simplify_eq. apply IH in Hp. simpl. lia.
    + simpl in H.
      destruct (String.index n needle s) as [p|] eqn:Hp; [|discriminate].
      simplify_eq. apply IH in Hp. simpl. lia.
Qed.

Lemma matchTopic_body_offset remain (it nx : part) rest idx last out last' out' :
  (last <= String.length remain)%nat ->
  matchTopic_body remain it (nx :: rest) idx last out = inr (last', out') ->
  (last' <= String.length remain)%nat.
Proof.
  intros Hlast. unfold matchTopic_body. destruct (it.2 <? 0).
  - destruct (String.eqb_spec
                (StdString.substr remain last (StdString.length it.1)) it.1)
      as [Heq|Hne]; [|discriminate].
    simpl. intros H. simplify_eq.
    apply (f_equal String.length) in Heq.
    unfold StdString.substr, StdString.length in *.
    rewrite length_substring in Heq. lia.
  - unfold StdString.find.
    destruct (String.index last nx.1 remain) as [pos|] eqn:Hpos; [|discriminate].
    intros H. simplify_eq. apply index_bounds in Hpos.
    unfold StdString.substr, StdString.length. rewrite length_substring. lia.
Qed.

Lemma matchTopic_at_offset remain (k : nat) :
  forall (parts : list part) idx last out it rest last' out',
    (last <= String.length remain)%nat ->
    matchTopic_at remain parts idx last out k = Some (it :: rest, last', out') ->
    (last' <= String.length remain)%nat.
Proof.
  induction k as [|k IH]; intros parts idx last out it rest last' out' Hlast H.
  - simpl in H. by simplify_eq.
  - simpl in H. destruct parts as [|p parts]; [discriminate|].
    destruct (matchTopic_body remain p parts idx last out) as [r|[l o]] eqn:Hbody;
      [discriminate|].
    destruct parts as [|nx parts].
    + destruct k; simpl in H; discriminate.
    + eapply IH; [|exact H]. by eapply matchTopic_body_offset.
Qed.

(** X13: Whenever the walk of [matchTopic] comes to a part, the offset is within
    the candidate string: no [substr] starts beyond its end. *)
Theorem matchTopic_offset_in_range
    (self : MqttReplacer.t) (remain : string) (out : topic_fields)
    (k : nat) (it : part) (rest : list part) (last : nat) (out' : topic_fields) :
  matchTopic_at remain (m_parts self) 0 0 out k = Some (it :: rest, last, out') ->
  (last <= String.length remain)%nat.
Proof. apply matchTopic_at_offset. lia. Qed.

(** After two parts of [ebusd/%circuit/%name/x] the walk on
    [ebusd/heating/temp/x] stands at offset 13. *)
Lemma matchTopic_offset_in_range_witness :
  matchTopic_at "ebusd/heating/temp/x" (m_parts suffixTopic) 0 0 no_fields 2
  = Some ([("/", -1); ("name", 1); ("/x", -1)], 13%nat,
          {| tf_circuit := "heating"; tf_name := ""; tf_field := "" |})
  /\ (13 <= String.length "ebusd/heating/temp/x")%nat.
Proof.
  split; [reflexivity|].
  apply (matchTopic_offset_in_range suffixTopic "ebusd/heating/temp/x" no_fields 2
           ("/", -1) [("name", 1); ("/x", -1)] 13
           {| tf_circuit := "heating"; tf_name := ""; tf_field := "" |}).
  reflexivity.
Defined.

(** ** get and untilFirstEmpty *)

Lemma get_loop_acc (parts : list part) values (untilFirstEmpty : bool) :
  forall ret,
    get_loop parts values untilFirstEmpty ret
    = ret +:+ get_loop parts values untilFirstEmpty EmptyString.
Proof.
  induction parts as [|it parts IH]; intros ret; simpl.
  - by rewrite append_nil_r.
  - destruct (it.2 <? 0).
    + rewrite IH, (IH (EmptyString +:+ it.1)), append_nil_l. by rewrite append_assoc.
    + destruct (values !! it.1) as [v|].
      * destruct (untilFirstEmpty && StdString.empty v); [by rewrite append_nil_r|].
        rewrite IH, (IH (EmptyString +:+ v)), append_nil_l. by rewrite append_assoc.
      * destruct untilFirstEmpty; [by rewrite append_nil_r|apply IH].
Qed.

Lemma get_loop_prefix (parts : list part) values :
  forall ret, exists rest,
    get_loop parts values false ret = get_loop parts values true ret +:+ rest.
Proof.
  induction parts as [|it parts IH]; intros ret; simpl.
  - exists EmptyString. by rewrite append_nil_r.
  - destruct (it.2 <? 0); [apply IH|].
    destruct (values !! it.1) as [v|].
    + destruct v as [|c v]; simpl; [|apply IH].
      rewrite (get_loop_acc parts values false (ret +:+ EmptyString)), append_nil_r.
      eauto.
    + rewrite (get_loop_acc parts values false ret). eauto.
Qed.

Lemma transform_append (f : ascii -> ascii) (a b : string) :
  StdString.transform f (a +:+ b) = StdString.transform f a +:+ StdString.transform f b.
Proof.
  induction a as [|c a IH]; [done|].
  rewrite append_cons. simpl. by rewrite IH.
Qed.

(** X14: With [untilFirstEmpty], [get] renders a prefix of what it renders
    without: the rendering stops at the first field that is missing or
    empty, and nothing before it changes. *)
Theorem get_untilFirstEmpty_prefix
    (self : MqttReplacer.t) (values : gmap string string) (onlyAlphanum : bool) :
  exists rest : string,
    get self values false onlyAlphanum = get self values true onlyAlphanum +:+ rest.
Proof.
  unfold get.
  destruct (get_loop_prefix (m_parts self) values EmptyString) as [rest ->].
  destruct onlyAlphanum; simpl; [|by eauto].
  unfold normalize. rewrite transform_append. eauto.
Qed.

End MqttReplacerInvariants.

(** * Further properties of the variable store *)

Section MqttReplacersInvariants.
Import MqttReplacers.

Lemma find_replacer_erase (key k : string) (replacers : list entry) :
  find_replacer (erase key replacers) k
  = if String.eqb key k then None else find_replacer replacers k.
Proof.
  induction replacers as [|[k0 r] rest IH]; simpl.
  - by destruct (String.eqb key k).
  - destruct (String.eqb_spec k0 key) as [->|Hne].
    + rewrite IH. destruct (String.eqb_spec key k) as [->|?]; [done|].
      by destruct (String.eqb_spec key k).
    + simpl. rewrite IH.
      destruct (String.eqb_spec k0 k) as [->|?]; [|done].
      by destruct (String.eqb_spec key k).
Qed.

Lemma get_after_set
    (self : MqttReplacers.t) (key value : string) (removeReplacer : bool)
    (untilFirstEmpty onlyAlphanum : bool) (fallbackKey : string) :
  get (set self key value removeReplacer).2 key untilFirstEmpty onlyAlphanum
    fallbackKey = value
  /\ at_ (set self key value removeReplacer).2 key = value.
Proof.
  unfold get, at_, set.
  destruct (bool_decide _); simpl.
  - by rewrite lookup_insert_eq.
  - destruct (String.eqb_spec (upper_of key) key) as [Heq|Hne]; simpl.
    + by rewrite lookup_insert_eq.
    + by rewrite lookup_insert_ne, lookup_insert_eq.
Qed.

(** X15: What [set] has stored is what [get] and [operator[]] return for the
    key, whatever template or fallback there is. *)
Theorem set_then_get
    (self : MqttReplacers.t) (key value : string) (removeReplacer : bool)
    (untilFirstEmpty onlyAlphanum : bool) (fallbackKey : string) :
  let st := (set self key value removeReplacer).2 in
  get st key untilFirstEmpty onlyAlphanum fallbackKey = value
  /\ at_ st key = value.
Proof. apply get_after_set. Qed.

(** X16: With [removeReplacer], [set] erases the template of the key and, when
    it writes the mirror, the template of the upper-cased key, and no other
    template; without it, the templates stay as they are. *)
Theorem set_erases_templates
    (self : MqttReplacers.t) (key value : string) (removeReplacer : bool) :
  let r := set self key value removeReplacer in
  (removeReplacer = false -> m_replacers r.2 = m_replacers self)
  /\ (removeReplacer = true ->
      find_replacer (m_replacers r.2) key = None
      /\ (r.1 = true -> find_replacer (m_replacers r.2) (upper_of key) = None)
      /\ (forall k : string,
            k <> key -> k <> upper_of key ->
            find_replacer (m_replacers r.2) k = find_replacer (m_replacers self) k)).
Proof.
  intros r. subst r. unfold set. split.
  - intros ->. destruct (bool_decide _); [done|]. by destruct (String.eqb _ _).
  - intros ->. destruct (bool_decide _); simpl.
    + rewrite find_replacer_erase, String.eqb_refl. split; [done|].
      split; [done|]. intros k Hk _. rewrite find_replacer_erase.
      by destruct (String.eqb_spec key k).
    + destruct (String.eqb_spec (upper_of key) key) as [Heq|Hne]; simpl.
      * rewrite find_replacer_erase, String.eqb_refl. split; [done|].
        split; [done|]. intros k Hk _. rewrite find_replacer_erase.
        by destruct (String.eqb_spec key k).
      * rewrite !find_replacer_erase, String.eqb_refl.
        split; [by destruct (String.eqb (upper_of key) key)|].
        split; [intros _; by rewrite String.eqb_refl|].
        intros k Hk Hu. rewrite !find_replacer_erase.
        destruct (String.eqb_spec (upper_of key) k); [done|].
        by destruct (String.eqb_spec key k).
Qed.

(** Setting [foo] in the store with the templates [foo] and [mqtttopic]. *)
Lemma set_erases_templates_witness :
  let r := set fooBarTopic "foo" "1" true in
  find_replacer (m_replacers r.2) "foo" = None
  /\ find_replacer (m_replacers r.2) "mqtttopic"
     = find_replacer (m_replacers fooBarTopic) "mqtttopic"
  /\ m_replacers (set fooBarTopic "foo" "1" false).2 = m_replacers fooBarTopic.
Proof.
  intros r.
  destruct (set_erases_templates fooBarTopic "foo" "1" true) as [_ Herase].
  destruct (Herase eq_refl) as (Hkey & _ & Hother).
  destruct (set_erases_templates fooBarTopic "foo" "1" false) as [Hkeep _].
  split; [exact Hkey|]. split.
  - apply Hother; vm_compute; discriminate.
  - apply Hkeep. reflexivity.
Defined.

Section ReduceInvariants.
Variable onlyAlphanum : bool.

Lemma set_plainKey (self : MqttReplacers.t) (key value : string) (rr : bool) :
  plainKey key -> (set self key value rr).1 = false.
Proof.
  intros Hplain. unfold set.
  destruct (bool_decide (StdString.find_first_of key "-_" <> None)) eqn:Hfind; [done|].
  apply bool_decide_eq_false in Hfind.
  destruct Hplain as [Hdash|Hupper].
  - destruct Hfind. by apply find_first_of_dash_underscore.
  - rewrite Hupper, String.eqb_refl. done.
Qed.

Lemma set_constants_grow (self : MqttReplacers.t) (key value : string) (rr : bool)
    (k : string) :
  is_Some (m_constants self !! k) ->
  is_Some (m_constants (set self key value rr).2 !! k).
Proof.
  intros Hk. unfold set.
  assert (is_Some (<[key:=value]> (m_constants self) !! k)) as H1.
  { rewrite lookup_insert. by case_decide. }
  destruct (bool_decide _); [done|]. destruct (String.eqb _ _); [done|]. simpl.
  rewrite lookup_insert. by case_decide.
Qed.

Lemma elem_of_erase (key : string) (e : entry) (replacers : list entry) :
  e ∈ erase key replacers -> e ∈ replacers.
Proof.
  induction replacers as [|[k r] rest IH]; simpl; [done|].
  destruct (String.eqb k key).
  - intros H. right. auto.
  - intros H. apply elem_of_cons in H as [->|H]; [left|right; auto].
Qed.

Lemma elem_of_app_skip (e x : entry) (l1 l2 : list entry) :
  e ∈ l1 ++ l2 -> e ∈ l1 ++ x :: l2.
Proof.
  rewrite !elem_of_app, elem_of_cons. tauto.
Qed.

(** A pass adds no template and removes no constant. *)
Lemma pass_frame (rest : list entry) :
  forall constants before reduced log st1 reduced1 log1,
    pass onlyAlphanum constants before rest reduced log
    = PassEnd st1 reduced1 log1 ->
    (forall k, is_Some (constants !! k) -> is_Some (m_constants st1 !! k))
    /\ (forall e, e ∈ m_replacers st1 -> e ∈ before ++ rest).
Proof.
  induction rest as [|[key repl] rest IH];
    intros constants before reduced log st1 reduced1 log1 H; simpl in H.
  - simplify_eq. simpl. by rewrite app_nil_r.
  - destruct (MqttReplacer.reduce repl constants onlyAlphanum) as [ok str].
    destruct (negb (MqttReplacer.isReducable repl constants) || negb ok).
    { apply IH in H as [Hc Hr]. split; [done|].
      intros e He. apply Hr in He. by rewrite <- app_assoc in He. }
    pose proof (set_constants_grow
                  {| m_constants := constants;
                     m_replacers := before ++ (key, repl) :: rest |} key str false)
      as Hgrow.
    destruct (set _ key str false) as [restart st'].
    assert (forall st1 r l,
              pass onlyAlphanum (m_constants st') before rest true
                (log ++ [{| fold_key := key; fold_template := repl;
                            fold_constants := constants |}]) = PassEnd st1 r l ->
              (forall k, is_Some (constants !! k) -> is_Some (m_constants st1 !! k))
              /\ (forall e, e ∈ m_replacers st1 -> e ∈ before ++ (key, repl) :: rest))
      as Hgo.
    { intros s r l Hp. apply IH in Hp as [Hc Hr]. split.
      - intros k Hk. apply Hc. by apply Hgrow.
      - intros e He. by apply elem_of_app_skip, Hr. }
    destruct restart; [|by eapply Hgo].
    destruct rest as [|[next r] rest']; [discriminate|].
    destruct (erases _ _); [|by eapply Hgo].
    simplify_eq. simpl. split; [by intros k Hk; apply Hgrow|].
    intros e He. apply elem_of_erase in He. by apply elem_of_app_skip.
Qed.

(** Over templates with plain keys a pass never reads the end iterator,
    and it leaves templates with plain keys. *)
Lemma pass_plain (rest : list entry) :
  forall constants before reduced log,
    Forall (fun e : entry => plainKey e.1) rest ->
    exists st1 reduced1 log1,
      pass onlyAlphanum constants before rest reduced log
      = PassEnd st1 reduced1 log1.
Proof.
  induction rest as [|[key repl] rest IH]; intros constants before reduced log Hall;
    simpl.
  - eauto.
  - apply Forall_cons in Hall as [Hkey Hall]. simpl in Hkey.
    destruct (MqttReplacer.reduce repl constants onlyAlphanum) as [ok str].
    destruct (negb (MqttReplacer.isReducable repl constants) || negb ok);
      [by apply IH|].
    pose proof (set_plainKey
                  {| m_constants := constants;
                     m_replacers := before ++ (key, repl) :: rest |} key str false Hkey)
      as Hrestart.
    destruct (set _ key str false) as [restart st']. simpl in Hrestart.
    subst restart. by apply IH.
Qed.

Lemma reduce_passes_plain (fuel : nat) :
  forall st log,
    Forall (fun e : entry => plainKey e.1) (m_replacers st) ->
    (reduce_passes onlyAlphanum fuel st log).1 <> EndDeref.
Proof.
  induction fuel as [|fuel IH]; intros st log Hall; [done|]. simpl.
  destruct (pass_plain (m_replacers st) (m_constants st) [] false log Hall)
    as (st1 & reduced1 & log1 & Hpass).
  rewrite Hpass. destruct reduced1; [|done].
  apply IH. apply pass_frame in Hpass as [_ Hsub].
  rewrite Forall_forall in *. intros e He. apply Hall. by apply Hsub.
Qed.

(** X17: When no template has a key that gets a mirror, [reduce] returns. *)
Theorem reduce_plain_keys_returns (st : MqttReplacers.t) :
  Forall (fun e : entry => plainKey e.1) (m_replacers st) ->
  exists st' : MqttReplacers.t, reduce onlyAlphanum st = Returned st'.
Proof.
  intros Hall.
  pose proof (reduce_passes_plain (S (List.length (m_replacers st))) st [] Hall) as Hend.
  pose proof (reduce_not_out_of_fuel onlyAlphanum st) as Hfuel.
  unfold reduce, reduce_log in *.
  destruct (reduce_passes _ _ _ _).1 as [st'| |]; [by exists st'|done|done].
Qed.

Lemma reduce_passes_frame (fuel : nat) :
  forall st log st',
    (reduce_passes onlyAlphanum fuel st log).1 = Returned st' ->
    (forall k, is_Some (m_constants st !! k) -> is_Some (m_constants st' !! k))
    /\ (forall e, e ∈ m_replacers st' -> e ∈ m_replacers st).
Proof.
  induction fuel as [|fuel IH]; intros st log st' H; [discriminate|].
  simpl in H.
  destruct (pass onlyAlphanum (m_constants st) [] (m_replacers st) false log)
    as [st1 reduced1 log1|] eqn:Hpass; [|discriminate].
  apply pass_frame in Hpass as [Hc Hr]. simpl in Hr.
  destruct reduced1.
  - apply IH in H as [Hc' Hr']. split; auto.
  - simpl in H. by simplify_eq.
Qed.

(** X18: [reduce] removes no constant and adds or changes no template: every
    key that had a constant has one afterwards, and every template left is
    one that was there. *)
Theorem reduce_frame (st st' : MqttReplacers.t) :
  reduce onlyAlphanum st = Returned st' ->
  (forall k : string,
     is_Some (m_constants st !! k) -> is_Some (m_constants st' !! k))
  /\ (forall e : entry, e ∈ m_replacers st' -> e ∈ m_replacers st)
  /\ forallb (fun it => negb (foldable onlyAlphanum (m_constants st') it))
       (m_replacers st') = true.
Proof.
  intros H. unfold reduce, reduce_log in H.
  destruct (reduce_passes_frame _ _ _ _ H) as [Hc Hr].
  split; [done|]. split; [done|]. by eapply reduce_passes_returned.
Qed.

End ReduceInvariants.

(** In the store with the constant [bar] and the templates [foo] and
    [mqtttopic], [reduce] folds [foo] and returns. *)
Lemma reduce_returned_fixed_point_witness :
  exists st' : MqttReplacers.t,
    reduce false fooBarTopic = Returned st'
    /\ reduce false st' = Returned st'.
Proof.
  destruct (reduce false fooBarTopic) as [st'| |] eqn:H;
    [|vm_compute in H; discriminate..].
  exists st'. split; [reflexivity|].
  apply (reduce_returned_fixed_point false fooBarTopic st' H).
Defined.

Lemma reduce_frame_witness :
  exists st' : MqttReplacers.t,
    reduce false fooBarTopic = Returned st'
    /\ is_Some (m_constants st' !! "bar")
    /\ forallb (fun it => negb (foldable false (m_constants st') it))
         (m_replacers st') = true.
Proof.
  destruct (reduce false fooBarTopic) as [st'| |] eqn:H;
    [|vm_compute in H; discriminate..].
  exists st'. split; [reflexivity|].
  destruct (reduce_frame false fooBarTopic st' H) as (Hconst & _ & Hfixed).
  split; [|exact Hfixed].
  apply Hconst. exists "x". reflexivity.
Defined.

(** The key [definition-topic] has a dash. *)
Lemma reduce_plain_keys_returns_witness :
  exists st' : MqttReplacers.t, reduce false definitionStore = Returned st'.
Proof.
  apply (reduce_plain_keys_returns false definitionStore).
  constructor; [|constructor].
  left. exists 10%nat, "-"%char. split; [reflexivity|by left].
Defined.
End MqttReplacersInvariants.

(** * Properties of the integration settings *)

Section IntegrationFacts.
Import Integration.

Variable trim : string -> string.
Variable newReplacer : MqttReplacer.t.
Variable removeReplacer : bool.

Local Abbreviation parseLine := (parseIntegration trim newReplacer removeReplacer).
Local Abbreviation readAll := (readLines trim newReplacer removeReplacer).

Lemma find_replacer_assign (key k : string) (r : MqttReplacer.t)
    (replacers : list MqttReplacers.entry) :
  MqttReplacers.find_replacer (assign key r replacers) k
  = if String.eqb key k then Some r else MqttReplacers.find_replacer replacers k.
Proof.
  induction replacers as [|[k0 r0] rest IH]; simpl.
  - done.
  - destruct (String.eqb_spec k0 key) as [->|Hne]; simpl.
    + by destruct (String.eqb key k).
    + destruct (String.ltb key k0); simpl.
      * done.
      * rewrite IH. destruct (String.eqb_spec k0 k) as [->|?]; [|done].
        by destruct (String.eqb_spec key k).
Qed.

(** X19: A line [key=value] or [key?=value], split at its first [=]: a value
    without [%] becomes the constant of the trimmed key, which [get] then
    returns.  A value with [%] leaves every constant as it is and becomes
    the template of the trimmed key, optional exactly when [?] stands before
    the [=], whatever template or fresh replacer was there; the templates
    of other keys stay. *)
Theorem parseIntegration_entry
    (self : MqttReplacers.t) (line : string) (pos : nat) :
  StdString.find_char line "=" 0 = Some pos ->
  (0 < pos)%nat ->
  let optional := bool_decide (String.get (pos - 1) line = Some "?"%char) in
  let key :=
    trim (StdString.substr line 0 (if optional then pos - 1 else pos)%nat) in
  let value := trim (StdString.substr_from line (pos + 1)) in
  let st := parseLine self line in
  (StdString.find_char value "%" 0 = None ->
   forall (untilFirstEmpty onlyAlphanum : bool) (fallbackKey : string),
     MqttReplacers.get st key untilFirstEmpty onlyAlphanum fallbackKey = value)
  /\ (StdString.find_char value "%" 0 <> None ->
      MqttReplacers.m_constants st = MqttReplacers.m_constants self
      /\ MqttReplacers.find_replacer (MqttReplacers.m_replacers st) key
         = Some {| MqttReplacer.m_parts := MqttReplacer.scan value;
                   MqttReplacer.m_emptyIfMissing := optional |}
      /\ forall k : string,
           k <> key ->
           MqttReplacers.find_replacer (MqttReplacers.m_replacers st) k
           = MqttReplacers.find_replacer (MqttReplacers.m_replacers self) k).
Proof.
  intros Hpos Hgt optional key value st. subst st.
  unfold parseIntegration. rewrite Hpos.
  assert (StdString.empty line = false) as ->.
  { destruct line; [discriminate Hpos|done]. }
  destruct (Nat.eqb_spec pos 0) as [?|_]; [lia|].
  fold optional.
  assert (trim (if optional then StdString.substr line 0 (pos - 1)
                else StdString.substr line 0 pos) = key) as ->.
  { subst key. by destruct optional. }
  fold value. split.
  - intros Hplain ufe oa fb. rewrite Hplain.
    rewrite bool_decide_eq_true_2 by done.
    apply (get_after_set self key value removeReplacer ufe oa fb).
  - intros Htempl. rewrite bool_decide_eq_false_2 by done. simpl.
    split; [done|]. rewrite !find_replacer_assign, String.eqb_refl.
    split; [done|]. intros k Hk. rewrite find_replacer_assign.
    by destruct (String.eqb_spec key k).
Qed.

Lemma parseIntegration_empty (self : MqttReplacers.t) :
  parseLine self EmptyString = self.
Proof. reflexivity. Qed.

(** X20: Lines that start with [#] are left out wherever they stand, also
    between the lines of one entry. *)
Theorem readLines_skips_comments
    (self : MqttReplacers.t) (last : string) (lines : list string) :
  readAll self last (List.filter (fun line => negb (startsWith "#" line)) lines)
  = readAll self last lines.
Proof.
  revert self last. induction lines as [|line lines IH]; intros self last; [done|].
  cbn [List.filter]. destruct (startsWith "#" line) eqn:Hc; cbn [negb].
  - rewrite IH. cbn [readLines].
    assert (StdString.empty line = false) as ->.
    { destruct line; [|done]. by apply bool_decide_eq_true in Hc. }
    by rewrite Hc.
  - cbn [readLines]. rewrite Hc. destruct (StdString.empty line); [apply IH|].
    destruct (StdString.empty last); [apply IH|].
    destruct (_ || _); apply IH.
Qed.

(** X21: Lines each of which starts an entry are handed to [parseIntegration]
    one by one, in their order, after the entry collected before them. *)
Theorem readLines_entries
    (self : MqttReplacers.t) (last : string) (lines : list string) :
  forallb startsEntry lines = true ->
  readAll self last lines
  = fold_left parseLine (last :: lines) self.
Proof.
  revert self last. induction lines as [|line lines IH]; intros self last Hall;
    [done|].
  simpl in Hall. apply andb_true_iff in Hall as [Hline Hall].
  unfold startsEntry in Hline.
  apply andb_true_iff in Hline as [Hline Hsp].
  apply andb_true_iff in Hline as [Hline Htab].
  apply andb_true_iff in Hline as [Hne Hc].
  apply negb_true_iff in Hne, Hc, Htab, Hsp.
  cbn [readLines]. rewrite Hne, Hc, Htab, Hsp. cbn [orb].
  destruct last as [|c last].
  - cbn [StdString.empty]. rewrite IH by done. reflexivity.
  - cbn [StdString.empty]. rewrite IH by done. reflexivity.
Qed.

End IntegrationFacts.

Section IntegrationExamples.
Import Integration.

(** The lines [version=23.1] and [payload?=%unit], read with a [trim] that
    finds nothing to remove. *)
Lemma parseIntegration_entry_witness :
  MqttReplacers.get
    (parseIntegration (fun s => s) MqttReplacer.init true fooBar "version=23.1")
    "version" false false "" = "23.1"
  /\ MqttReplacers.find_replacer
       (MqttReplacers.m_replacers
          (parseIntegration (fun s => s) MqttReplacer.init true fooBar
             "payload?=%unit"))
       "payload"
     = Some {| MqttReplacer.m_parts := MqttReplacer.scan "%unit";
               MqttReplacer.m_emptyIfMissing := true |}.
Proof.
  split.
  - pose proof (parseIntegration_entry (fun s => s) MqttReplacer.init true fooBar
                  "version=23.1" 7 eq_refl ltac:(lia)) as H.
    cbv zeta in H. destruct H as [Hconst _].
    apply (Hconst eq_refl false false "").
  - pose proof (parseIntegration_entry (fun s => s) MqttReplacer.init true fooBar
                  "payload?=%unit" 8 eq_refl ltac:(lia)) as H.
    cbv zeta in H. destruct H as [_ Htemplate].
    destruct Htemplate as (_ & Hkey & _); [vm_compute; discriminate|].
    exact Hkey.
Defined.

Lemma readLines_entries_witness :
  readLines (fun s => s) MqttReplacer.init true fooBar ""
    ["version=23.1"; "payload?=%unit"]
  = parseIntegration (fun s => s) MqttReplacer.init true
      (parseIntegration (fun s => s) MqttReplacer.init true
         (parseIntegration (fun s => s) MqttReplacer.init true fooBar "")
         "version=23.1")
      "payload?=%unit".
Proof.
  exact (readLines_entries (fun s => s) MqttReplacer.init true fooBar ""
           ["version=23.1"; "payload?=%unit"] eq_refl).
Defined.

End IntegrationExamples.

(** * Further properties of the handler *)

Section NotifyTopicDispatch.
Import MqttHandler.

Variable UI_FIELD_SEPARATOR : ascii.
Variable parseInt : string -> Z -> Z -> Z -> Z * bool.
Variable find : string -> string -> bool -> bool -> option Message.
Variable findAll : string -> string -> bool -> list Message.
Variable setPollPriority : Message -> Z -> bool.
Variable readFromBus : Message -> string -> bool.
Variable g_topicReplacer : MqttReplacer.t.
Variable m_subscribeConfigRestartTopic : string.
Variable m_subscribeConfigRestartPayload : string.

Local Abbreviation notify :=
  (notifyTopic UI_FIELD_SEPARATOR parseInt find findAll setPollPriority readFromBus
     g_topicReplacer m_subscribeConfigRestartTopic m_subscribeConfigRestartPayload).

Local Abbreviation notRestart topic :=
  ((StdString.empty m_subscribeConfigRestartTopic
    || negb (String.eqb topic m_subscribeConfigRestartTopic)) = true).

Lemma notRestart_guard (topic : string) :
  notRestart topic ->
  negb (StdString.empty m_subscribeConfigRestartTopic)
  && String.eqb topic m_subscribeConfigRestartTopic = false.
Proof.
  intros H. apply orb_true_iff in H as [->|H]; [done|].
  apply negb_true_iff in H. rewrite H. apply andb_false_r.
Qed.

(** X22: A topic without a slash, and a topic whose last segment is none of
    [get], [set] and [list], has the handler do nothing. *)
Theorem notifyTopic_ignores_other_topics (topic data : string) :
  (StdString.rfind_char topic "/" = None -> notify topic data = [])
  /\ (forall pos : nat,
        StdString.rfind_char topic "/" = Some pos ->
        notRestart topic ->
        StdString.substr_from topic (pos + 1) <> "set" ->
        StdString.substr_from topic (pos + 1) <> "list" ->
        StdString.substr_from topic (pos + 1) <> "get" ->
        notify topic data = []).
Proof.
  unfold notifyTopic. split; [by intros ->|].
  intros pos -> Hrestart Hset Hlist Hget.
  rewrite (notRestart_guard _ Hrestart). cbv zeta.
  destruct (StdString.empty (StdString.substr_from topic (pos + 1))); [done|].
  apply String.eqb_neq in Hset, Hlist, Hget. by rewrite Hset, Hlist, Hget.
Qed.

Lemma notifyTopic_resolved_set (topic : string) (message : Message) (data : string) :
  resolvesSet find g_topicReplacer m_subscribeConfigRestartTopic topic message ->
  notify topic data
  = notifyMessage UI_FIELD_SEPARATOR parseInt setPollPriority readFromBus
      true message data.
Proof.
  intros (pos & Hpos & Hrestart & Hdir & Hname & Hfind).
  unfold notifyTopic. rewrite Hpos, (notRestart_guard _ Hrestart), Hdir. simpl.
  destruct (MqttReplacer.matchTopic _ _ _) as [code out]. simpl in *.
  by rewrite Hname, Hfind.
Qed.

(** X23: For a [set] topic resolved to a message that is not passive, the
    payload goes to the bus as it is, also when it ends in [?] and a
    digit. *)
Theorem notifyTopic_set_passes_payload
    (topic : string) (message : Message) (data : string) :
  resolvesSet find g_topicReplacer m_subscribeConfigRestartTopic topic message ->
  isPassive message = false ->
  notify topic data = plainRead readFromBus message data.
Proof.
  intros Hres Hactive. rewrite (notifyTopic_resolved_set _ _ _ Hres).
  unfold notifyMessage, plainRead. by rewrite Hactive.
Qed.

(** X24: For a passive message the handler never calls the bus: a [get] or a
    [set] topic resolved to it only has the last value published. *)
Theorem notifyTopic_passive_publishes_only
    (topic : string) (message : Message) (data : string) :
  resolvesGet find g_topicReplacer m_subscribeConfigRestartTopic topic message
  \/ resolvesSet find g_topicReplacer m_subscribeConfigRestartTopic topic message ->
  isPassive message = true ->
  notify topic data = [PublishMessage message false].
Proof.
  intros [Hres|Hres] Hpassive.
  - rewrite (notifyTopic_resolved UI_FIELD_SEPARATOR parseInt find findAll
               setPollPriority readFromBus g_topicReplacer
               m_subscribeConfigRestartTopic m_subscribeConfigRestartPayload
               _ _ _ Hres).
    unfold notifyMessage. by rewrite Hpassive.
  - rewrite (notifyTopic_resolved_set _ _ _ Hres).
    unfold notifyMessage. by rewrite Hpassive.
Qed.

(** X25: A [list] topic has the handler publish messages and do nothing else:
    each one is published with the flag that includes messages without
    data and, when the payload is not empty, has been updated. *)
Theorem notifyTopic_list_publishes_only (topic data : string) (pos : nat) :
  StdString.rfind_char topic "/" = Some pos ->
  notRestart topic ->
  StdString.substr_from topic (pos + 1) = "list" ->
  Forall (fun a : action =>
            exists m : Message,
              a = PublishMessage m true
              /\ (data <> EmptyString -> getLastUpdateTime m <> 0))
    (notify topic data).
Proof.
  intros Hpos Hrestart Hdir. unfold notifyTopic.
  rewrite Hpos, (notRestart_guard _ Hrestart), Hdir. simpl.
  destruct (MqttReplacer.matchTopic _ _ _) as [code out].
  unfold notifyList.
  generalize (findAll
       (if isPrefixPattern (MqttReplacer.tf_circuit out)
        then StdString.substr (MqttReplacer.tf_circuit out) 0
               (StdString.length (MqttReplacer.tf_circuit out) - 1)
        else MqttReplacer.tf_circuit out)
       (if isPrefixPattern (MqttReplacer.tf_name out)
        then StdString.substr (MqttReplacer.tf_name out) 0
               (StdString.length (MqttReplacer.tf_name out) - 1)
        else MqttReplacer.tf_name out)
       (negb (isPrefixPattern (MqttReplacer.tf_circuit out)
              || isPrefixPattern (MqttReplacer.tf_name out)))).
  intros messages. induction messages as [|m messages IH]; [constructor|].
  cbn [flat_map]. apply Forall_app. split; [|exact IH].
  match goal with |- Forall _ (if ?b then _ else _) => destruct b end;
    [constructor|].
  destruct (negb (StdString.empty data) && (getLastUpdateTime m =? 0)) eqn:Hskip;
    [constructor|].
  constructor; [|constructor]. exists m. split; [done|].
  intros Hdata. apply andb_false_iff in Hskip as [Hskip|Hskip].
  - destruct data; [done|discriminate].
  - by apply Z.eqb_neq.
Qed.

End NotifyTopicDispatch.

Section NotifyTopicExamples.
Import MqttHandler.

(** The topic [status] has no slash; [ebusd/heating/temp/x/state] ends in
    a segment the handler does not know. *)
Lemma notifyTopic_ignores_other_topics_witness :
  notifyCatalog "status" "1" = []
  /\ notifyCatalog "ebusd/heating/temp/x/state" "1" = [].
Proof.
  split.
  - destruct (notifyTopic_ignores_other_topics ";" parseDecimal findInCatalog
                (fun _ _ _ => [heatingTemp; outsideTemp]) (fun _ _ => true)
                (fun _ _ => true) suffixTopic "" "" "status" "1") as [Hnone _].
    apply Hnone. reflexivity.
  - destruct (notifyTopic_ignores_other_topics ";" parseDecimal findInCatalog
                (fun _ _ _ => [heatingTemp; outsideTemp]) (fun _ _ => true)
                (fun _ _ => true) suffixTopic "" ""
                "ebusd/heating/temp/x/state" "1") as [_ Hother].
    apply (Hother 20%nat); [reflexivity|reflexivity|vm_compute; discriminate..].
Defined.

(** The payload [21?5] of a [set] topic reaches the bus with its [?5]. *)
Lemma notifyTopic_set_passes_payload_witness :
  notifyCatalog "ebusd/heating/temp/x/set" "21?5"
  = [ReadFromBus heatingTemp "21?5"; PublishMessage heatingTemp false].
Proof.
  assert (resolvesSet findInCatalog suffixTopic "" "ebusd/heating/temp/x/set"
            heatingTemp) as Hres.
  { exists 20%nat. repeat split; reflexivity. }
  apply (notifyTopic_set_passes_payload ";" parseDecimal findInCatalog
           (fun _ _ _ => [heatingTemp; outsideTemp]) (fun _ _ => true)
           (fun _ _ => true) suffixTopic "" "" "ebusd/heating/temp/x/set"
           heatingTemp "21?5" Hres eq_refl).
Defined.

(** A [get] for the passive [outside temp], with a priority suffix. *)
Lemma notifyTopic_passive_publishes_only_witness :
  notifyCatalog "ebusd/outside/temp/x/get" "?5" = [PublishMessage outsideTemp false].
Proof.
  assert (resolvesGet findInCatalog suffixTopic "" "ebusd/outside/temp/x/get"
            outsideTemp) as Hres.
  { exists 20%nat. repeat split; reflexivity. }
  apply (notifyTopic_passive_publishes_only ";" parseDecimal findInCatalog
           (fun _ _ _ => [heatingTemp; outsideTemp]) (fun _ _ => true)
           (fun _ _ => true) suffixTopic "" "" "ebusd/outside/temp/x/get"
           outsideTemp "?5" (or_introl Hres) eq_refl).
Defined.

(** The topic [ebusd/list] with the payload [1]. *)
Lemma notifyTopic_list_publishes_only_witness :
  notifyCatalog "ebusd/list" "1" = [PublishMessage outsideTemp true]
  /\ Forall (fun a : action =>
               exists m : Message,
                 a = PublishMessage m true
                 /\ ("1" <> EmptyString -> getLastUpdateTime m <> 0))
       (notifyCatalog "ebusd/list" "1").
Proof.
  split; [reflexivity|].
  apply (notifyTopic_list_publishes_only ";" parseDecimal findInCatalog
           (fun _ _ _ => [heatingTemp; outsideTemp]) (fun _ _ => true)
           (fun _ _ => true) suffixTopic "" "" "ebusd/list" "1" 5);
    reflexivity.
Defined.

End NotifyTopicExamples.

Section RunInvariants.
Import MqttHandler.

Ltac split_ifs_eq :=
  repeat match goal with
         | |- context [if ?b then _ else _] => destruct b eqn:?; simpl
         end.

(** What an iteration does to the members [handleTraffic] alone writes. *)
Lemma iteration_handler (st : loop_state) (i : tick) :
  let h1 := (handleTraffic (self st) (allowReconnect st) i).1.2 in
  let h2 := self (next (iteration st i)) in
  m_connected h2 = m_connected h1
  /\ m_initialConnectFailed h2 = m_initialConnectFailed h1
  /\ m_lastErrorLogTime h2 = m_lastErrorLogTime h1.
Proof.
  unfold iteration.
  destruct (handleTraffic (self st) (allowReconnect st) i) as [[needsWait0 h1] acts1].
  simpl. split_ifs_eq; done.
Qed.

(** The calls of an iteration that do not publish are those of
    [handleTraffic], and the discarding of the updates. *)
Lemma iteration_acts (p : action -> bool) (st : loop_state) (i : tick) :
  (forall a, isLoopPublish a = true -> p a = false) ->
  p ClearUpdates = false ->
  existsb p (acts (iteration st i))
  = existsb p (handleTraffic (self st) (allowReconnect st) i).2.
Proof.
  intros Hp Hclear. unfold iteration.
  destruct (handleTraffic (self st) (allowReconnect st) i) as [[needsWait0 h1] acts1].
  simpl.
  split_ifs_eq; rewrite ?existsb_app; simpl; rewrite ?Hclear, ?Hp by done;
    rewrite ?orb_false_r; done.
Qed.

Lemma handleTraffic_no_publish (h : MqttHandler.t) (allow : bool) (i : tick) :
  existsb isLoopPublish (handleTraffic h allow i).2 = false.
Proof.
  unfold handleTraffic. destruct (m_mosquitto h); simpl; [|done].
  split_ifs_eq; rewrite ?existsb_app; simpl; done.
Qed.

(** X26: In an iteration at whose end the handler is not connected, the body
    of the loop of [run] makes none of its own publishes: no uptime, no
    definitions, no signal and no updated messages, also when the timer
    fires, the bus has a signal and messages have been updated. *)
Theorem iteration_disconnected_no_loop_publish (st : loop_state) (i : tick) :
  m_connected (self (next (iteration st i))) = false ->
  existsb isLoopPublish (acts (iteration st i)) = false.
Proof.
  destruct (iteration_handler st i) as (-> & _ & _).
  pose proof (handleTraffic_no_publish (self st) (allowReconnect st) i) as Hnp.
  unfold iteration.
  destruct (handleTraffic (self st) (allowReconnect st) i) as [[needsWait0 h1] acts1].
  simpl in *. intros Hconn. rewrite Hconn. rewrite andb_false_r. simpl.
  split_ifs_eq; rewrite ?existsb_app, ?Hnp; simpl; done.
Qed.

(** At time 116 of a loop entered at 100 the timer fires and the bus has a
    signal, and the handler stays disconnected. *)
Lemma iteration_disconnected_no_loop_publish_witness :
  timerFired (run_init disconnected 100) (noConnAt 116) = true
  /\ m_connected (self (next (iteration (run_init disconnected 100) (noConnAt 116))))
     = false
  /\ existsb isLoopPublish
       (acts (iteration (run_init disconnected 100) (noConnAt 116)))
     = false.
Proof.
  split; [reflexivity|]. split; [reflexivity|].
  apply (iteration_disconnected_no_loop_publish (run_init disconnected 100)
           (noConnAt 116)).
  reflexivity.
Defined.

Lemma handleTraffic_errorLog (h : MqttHandler.t) (allow : bool) (i : tick) :
  let r := handleTraffic h allow i in
  (existsb isCheckError r.2 = true ->
   error_time i > m_lastErrorLogTime h + 10
   /\ m_lastErrorLogTime r.1.2 = error_time i)
  /\ m_lastErrorLogTime h <= m_lastErrorLogTime r.1.2.
Proof.
  unfold handleTraffic.
  destruct (m_mosquitto h); simpl; [|split; [discriminate|lia]].
  split.
  - split_ifs_eq; rewrite ?existsb_app; simpl; try discriminate;
      intros _; split; try done;
      match goal with H : (_ >? _) = true |- _ => apply Z.gtb_gt in H end; lia.
  - split_ifs_eq; try lia;
      match goal with H : (_ >? _) = true |- _ => apply Z.gtb_gt in H end; lia.
Qed.

Lemma iteration_errorLog (st : loop_state) (i : tick) :
  (existsb isCheckError (acts (iteration st i)) = true ->
   error_time i > m_lastErrorLogTime (self st) + 10
   /\ m_lastErrorLogTime (self (next (iteration st i))) = error_time i)
  /\ m_lastErrorLogTime (self st)
     <= m_lastErrorLogTime (self (next (iteration st i))).
Proof.
  rewrite (iteration_acts isCheckError st i ltac:(by intros []) eq_refl).
  destruct (iteration_handler st i) as (_ & _ & ->).
  destruct (handleTraffic_errorLog (self st) (allowReconnect st) i) as [H1 H2].
  split; [|done]. intros H. by apply H1.
Qed.

(** A property of the state that an iteration keeps holds from a step of
    the trace on. *)
Lemma run_loop_stable (P : loop_state -> Prop) (ticks : list tick)
    (st : loop_state) :
  (forall st i, P st -> P (next (iteration st i))) ->
  forall (d k : nat) (s1 s2 : step),
    run_loop st ticks !! k = Some s1 ->
    run_loop st ticks !! (k + d)%nat = Some s2 ->
    P (before s1) -> P (before s2).
Proof.
  intros Hstep. induction d as [|d IH]; intros k s1 s2 H1 H2 HP.
  - rewrite Nat.add_0_r in H2. by simplify_eq.
  - replace (k + S d)%nat with (S k + d)%nat in H2 by lia.
    destruct (run_loop st ticks !! S k) as [s|] eqn:Hs.
    + apply (IH (S k) s s2 Hs H2).
      rewrite (run_loop_succ _ _ _ _ _ H1 Hs). by apply Hstep.
    + apply lookup_ge_None in Hs. apply lookup_lt_Some in H2. lia.
Qed.

(** X27: [handleTraffic] makes its call [check(ret, "communication error")],
    the report of the status of [mosquitto_loop] or of the connection
    attempt, at most once in 10 seconds: between two iterations of a run
    that make it, the clock [handleTraffic] reads has advanced by more than
    10.  (The [check] of a publish in [publishTopic] has no such test and is
    not among the calls of an iteration.) *)
Theorem handleTraffic_check_rate_limited
    (handler : MqttHandler.t) (now : Z) (ticks : list tick)
    (k1 k2 : nat) (s1 s2 : step) :
  run handler now ticks !! k1 = Some s1 ->
  run handler now ticks !! k2 = Some s2 ->
  (k1 < k2)%nat ->
  existsb isCheckError (calls s1) = true ->
  existsb isCheckError (calls s2) = true ->
  error_time (input s2) > error_time (input s1) + 10.
Proof.
  unfold run. set (st := run_init handler now).
  intros H1 H2 Hlt Hc1 Hc2.
  assert (forall k s, run_loop st ticks !! k = Some s ->
                      calls s = acts (iteration (before s) (input s))) as Hcalls.
  { clear. generalize st. induction ticks as [|i ticks IH]; intros st0 k s H; [done|].
    simpl in H. destruct k as [|k]; simpl in H; [by simplify_eq|].
    destruct (continues (iteration st0 i)); [by eapply IH|done]. }
  rewrite (Hcalls _ _ H1) in Hc1. rewrite (Hcalls _ _ H2) in Hc2.
  destruct (iteration_errorLog (before s1) (input s1)) as [Hlog1 _].
  destruct (Hlog1 Hc1) as [_ Hstamp].
  destruct (iteration_errorLog (before s2) (input s2)) as [Hlog2 _].
  destruct (Hlog2 Hc2) as [Hgt _].
  destruct (run_loop st ticks !! S k1) as [s|] eqn:Hs.
  2:{ apply lookup_ge_None in Hs. apply lookup_lt_Some in H2. lia. }
  assert (error_time (input s1) <= m_lastErrorLogTime (self (before s2))) as Hle.
  { apply (run_loop_stable
             (fun st => error_time (input s1) <= m_lastErrorLogTime (self st))
             ticks st) with (d := (k2 - S k1)%nat) (k := S k1) (s1 := s).
    - intros st0 i0 Hst0. destruct (iteration_errorLog st0 i0) as [_ Hmono]. lia.
    - done.
    - by replace (S k1 + (k2 - S k1))%nat with k2 by lia.
    - rewrite (run_loop_succ _ _ _ _ _ H1 Hs). lia. }
  lia.
Qed.

(** Of the failures of [mosquitto_loop] at 101, 105 and 112 the first and
    the third are reported. *)
Lemma handleTraffic_check_rate_limited_witness :
  exists s1 s2 : step,
    run connected 100 errnoTicks !! 0%nat = Some s1
    /\ run connected 100 errnoTicks !! 2%nat = Some s2
    /\ existsb isCheckError (calls s1) = true
    /\ existsb isCheckError (calls s2) = true
    /\ error_time (input s2) > error_time (input s1) + 10.
Proof.
  destruct (run connected 100 errnoTicks !! 0%nat) as [s1|] eqn:H1;
    [|vm_compute in H1; discriminate].
  destruct (run connected 100 errnoTicks !! 2%nat) as [s2|] eqn:H2;
    [|vm_compute in H2; discriminate].
  assert (existsb isCheckError (calls s1) = true) as Hc1.
  { vm_compute in H1. injection H1 as <-. reflexivity. }
  assert (existsb isCheckError (calls s2) = true) as Hc2.
  { vm_compute in H2. injection H2 as <-. reflexivity. }
  exists s1, s2. split; [reflexivity|]. split; [reflexivity|].
  split; [exact Hc1|]. split; [exact Hc2|].
  apply (handleTraffic_check_rate_limited connected 100 errnoTicks 0 2 s1 s2 H1 H2);
    [lia|exact Hc1|exact Hc2].
Defined.

Lemma handleTraffic_initialConnect (h : MqttHandler.t) (allow : bool) (i : tick) :
  let r := handleTraffic h allow i in
  (existsb isConnect r.2 = true -> m_initialConnectFailed h = true)
  /\ (m_initialConnectFailed h = false -> m_initialConnectFailed r.1.2 = false).
Proof.
  unfold handleTraffic.
  destruct (m_mosquitto h); simpl; [|by split].
  split_ifs_eq; rewrite ?existsb_app; simpl; split; try done; try congruence.
Qed.

(** X28: [mosquitto_connect] is called only while the initial connect has
    failed; from the iteration on in which that is no longer so, the handler
    only calls [mosquitto_reconnect]. *)
Theorem connect_only_until_first_success
    (handler : MqttHandler.t) (now : Z) (ticks : list tick)
    (k1 k2 : nat) (s1 s2 : step) :
  run handler now ticks !! k1 = Some s1 ->
  run handler now ticks !! k2 = Some s2 ->
  (k1 <= k2)%nat ->
  m_initialConnectFailed (self (before s1)) = false ->
  m_initialConnectFailed (self (before s2)) = false
  /\ existsb isConnect (calls s2) = false.
Proof.
  unfold run. set (st := run_init handler now).
  intros H1 H2 Hle Hflag.
  assert (forall k s, run_loop st ticks !! k = Some s ->
                      calls s = acts (iteration (before s) (input s))) as Hcalls.
  { clear. generalize st. induction ticks as [|i ticks IH]; intros st0 k s H; [done|].
    simpl in H. destruct k as [|k]; simpl in H; [by simplify_eq|].
    destruct (continues (iteration st0 i)); [by eapply IH|done]. }
  assert (m_initialConnectFailed (self (before s2)) = false) as Hflag2.
  { apply (run_loop_stable
             (fun st => m_initialConnectFailed (self st) = false) ticks st)
      with (d := (k2 - k1)%nat) (k := k1) (s1 := s1); try done.
    - intros st0 i0 Hst0. destruct (iteration_handler st0 i0) as (_ & -> & _).
      by apply handleTraffic_initialConnect.
    - by replace (k1 + (k2 - k1))%nat with k2 by lia. }
  split; [done|]. rewrite (Hcalls _ _ H2).
  rewrite (iteration_acts isConnect _ _ ltac:(by intros []) eq_refl).
  destruct (handleTraffic_initialConnect (self (before s2))
              (allowReconnect (before s2)) (input s2)) as [Hc _].
  destruct (existsb isConnect _) eqn:He; [|done].
  rewrite Hc in Hflag2; done.
Qed.

(** The run of the handler that has lost its connection: the third
    iteration reconnects and does not connect. *)
Lemma connect_only_until_first_success_witness :
  exists s1 s2 : step,
    run disconnected 100 reconnectTicks !! 0%nat = Some s1
    /\ run disconnected 100 reconnectTicks !! 2%nat = Some s2
    /\ m_initialConnectFailed (self (before s2)) = false
    /\ existsb isConnect (calls s2) = false.
Proof.
  destruct (run disconnected 100 reconnectTicks !! 0%nat) as [s1|] eqn:H1;
    [|vm_compute in H1; discriminate].
  destruct (run disconnected 100 reconnectTicks !! 2%nat) as [s2|] eqn:H2;
    [|vm_compute in H2; discriminate].
  exists s1, s2. split; [reflexivity|]. split; [reflexivity|].
  apply (connect_only_until_first_success disconnected 100 reconnectTicks 0 2
           s1 s2 H1 H2); [lia|].
  vm_compute in H1. injection H1 as <-. reflexivity.
Defined.

End RunInvariants.
